(** * Signal-generation pipeline of [script.js]

    A shallow embedding of the TTL cache, the resilient fetcher, the
    indicator engine and the decision fusion of [src/script.js], and the
    properties the specification states about them; then the advisory
    call, the asset-list loader and the candles of the chart, and
    further properties of the code.

    Modelling conventions.
    - A JavaScript Number is a [number]: an exact rational, one of the two
      infinities, or NaN.  Arithmetic follows the IEEE-754 case analysis on
      these classes; rounding, overflow and underflow of binary64, and the
      sign of zero, are not modelled.  The reference definitions of the
      specification are therefore given twice, on exact rationals and
      in the arithmetic of the language ([Spec]): the code is compared
      with the latter, operation by operation and in the order of the
      code, and what is stated of the range or of the order of results
      is stated for every class of value, NaN and the infinities
      included.
    - [Binary64] replays [calculateRSI] and [calculateBollinger] on
      binary64 floats, where overflow decides what the code returns.
    - [STATE.signals] is a [Map]: the list of its entries in insertion
      order, one per key.
    - [undefined] is [None] of an [option]: reading an array out of range
      gives [None], and [ToNumber] turns it into NaN as the arithmetic
      operators of the language do.
    - [localStorage] is a finite map from keys to JSON documents.  The
      program stores only strings produced by [JSON.stringify], which
      are never empty, and reads them back with [JSON.parse]; the model
      keeps the document a stored string encodes, and [setItem] does not
      throw.
    - The network, the connectivity flag and the clock are inputs of a call
      ([env]); toasts are collected in an output log. *)

From Stdlib Require Import QArith Qcanon Qcabs ZArith Lia Lqa.
From Stdlib Require Floats.PrimFloat.
From stdpp Require Import base numbers option list strings gmap.
From Stdlib Require Import Ascii.

Local Open Scope Qc_scope.

(** ** Numbers *)

Module Num.

Inductive number : Type :=
| Fin (q : Qc)
| PInf
| NInf
| NaN.

Definition Qcltb (x y : Qc) : bool :=
  match x ?= y with Lt => true | _ => false end.

Definition Qceqb (x y : Qc) : bool :=
  match x ?= y with Eq => true | _ => false end.

(** Decimal literals of the source. *)
Definition lit (z : Z) : Qc := Qc_of_Z z.
Definition dec (n : Z) (d : positive) : Qc := Q2Qc (n # d).

(** [-x] *)
Definition neg (x : number) : number :=
  match x with
  | Fin q => Fin (- q)
  | PInf => NInf
  | NInf => PInf
  | NaN => NaN
  end.

(** [x + y] *)
Definition add (x y : number) : number :=
  match x, y with
  | NaN, _ | _, NaN => NaN
  | PInf, NInf | NInf, PInf => NaN
  | PInf, _ | _, PInf => PInf
  | NInf, _ | _, NInf => NInf
  | Fin a, Fin b => Fin (a + b)
  end.

(** [x - y] *)
Definition sub (x y : number) : number := add x (neg y).

(** Sign of a rational as an infinity; zero has no sign here. *)
Definition inf_of_sign (q : Qc) : number :=
  if Qcltb 0 q then PInf else if Qcltb q 0 then NInf else NaN.

(** [x * y] *)
Definition mul (x y : number) : number :=
  match x, y with
  | NaN, _ | _, NaN => NaN
  | Fin a, Fin b => Fin (a * b)
  | PInf, Fin q | Fin q, PInf => inf_of_sign q
  | NInf, Fin q | Fin q, NInf => neg (inf_of_sign q)
  | PInf, PInf | NInf, NInf => PInf
  | PInf, NInf | NInf, PInf => NInf
  end.

(** [x / y]; a zero divisor counts as [+0]. *)
Definition div (x y : number) : number :=
  match x, y with
  | NaN, _ | _, NaN => NaN
  | Fin a, Fin b => if Qceqb b 0 then inf_of_sign a else Fin (a / b)
  | Fin _, (PInf | NInf) => Fin 0
  | PInf, Fin b => if Qcltb b 0 then NInf else PInf
  | NInf, Fin b => if Qcltb b 0 then PInf else NInf
  | (PInf | NInf), (PInf | NInf) => NaN
  end.

(** [x < y] *)
Definition lt (x y : number) : bool :=
  match x, y with
  | NaN, _ | _, NaN => false
  | Fin a, Fin b => Qcltb a b
  | NInf, (Fin _ | PInf) => true
  | Fin _, PInf => true
  | _, _ => false
  end.

(** [x > y] *)
Definition gt (x y : number) : bool := lt y x.

(** [x === y] on numbers *)
Definition strict_eq (x y : number) : bool :=
  match x, y with
  | Fin a, Fin b => Qceqb a b
  | PInf, PInf | NInf, NInf => true
  | _, _ => false
  end.

(** The coercion applied by arithmetic to a possibly [undefined] operand. *)
Definition ToNumber (v : option number) : number :=
  match v with
  | Some x => x
  | None => NaN
  end.

(** [Math.pow(x, 2)] *)
Definition pow2 (x : number) : number := mul x x.

(** [Math.sqrt], over a square root [sqrtQ] of the non-negative rationals. *)
Definition Math_sqrt (sqrtQ : Qc → Qc) (x : number) : number :=
  match x with
  | Fin q => if Qcltb q 0 then NaN else Fin (sqrtQ q)
  | PInf => PInf
  | NInf | NaN => NaN
  end.

End Num.

Export Num.

(** ** Exceptions and completions *)

Inductive exn : Type :=
| TypeError                 (* property read on null, reduce of an empty array *)
| SyntaxError               (* a body that is not JSON *)
| NetworkError              (* fetch rejected *)
| TimeoutError              (* the 5 s abort signal fired *)
| ErrorOffline              (* new Error('Offline') *)
| ErrorStatus (status : Z). (* new Error(r.status) *)

Inductive completion (A : Type) : Type :=
| Normal (a : A)
| Throw (e : exn).
Arguments Normal {A} a.
Arguments Throw {A} e.

(** ** Indicator engine *)

Module Indicators.

(** [prices.length] as a number *)
Definition of_nat (n : nat) : number := Fin (Qc_of_Z (Z.of_nat n)).

(** [prices[i - 1]]; index [-1] reads [undefined]. *)
Definition before (prices : list number) (i : nat) : option number :=
  match i with
  | O => None
  | S j => prices !! j
  end.

(** One pass of the loop body of [calculateRSI] at index [i]. *)
Definition rsi_step (prices : list number) (acc : number * number) (i : nat)
  : number * number :=
  let '(gains, losses) := acc in
  let change := sub (ToNumber (prices !! i)) (ToNumber (before prices i)) in
  if gt change (Fin 0) then (add gains change, losses)
  else (gains, sub losses change).

(** [calculateRSI(prices, period = 14)] *)
Definition calculateRSI (prices : list number) (period : nat) : number :=
  if (length prices <? period + 1)%nat then Fin (lit 50)
  else
    let '(gains, losses) :=
      foldl (rsi_step prices) (Fin 0, Fin 0)
            (seq (length prices - period) period) in
    let avgGain := div gains (of_nat period) in
    let avgLoss := div losses (of_nat period) in
    if strict_eq avgLoss (Fin 0) then Fin (lit 100)
    else
      let rs := div avgGain avgLoss in
      sub (Fin (lit 100)) (div (Fin (lit 100)) (add (Fin 1) rs)).

(** One pass of the loop body of [calculateEMA] at index [i]. *)
Definition ema_step (prices : list number) (multiplier : number)
    (ema : option number) (i : nat) : option number :=
  Some (add (mul (sub (ToNumber (prices !! i)) (ToNumber ema)) multiplier)
            (ToNumber ema)).

(** [calculateEMA(prices, period)] *)
Definition calculateEMA (prices : list number) (period : nat) : option number :=
  if (length prices <? period)%nat then before prices (length prices)
  else
    let multiplier := div (Fin (lit 2)) (add (of_nat period) (Fin 1)) in
    foldl (ema_step prices multiplier) (prices !! 0%nat)
          (seq 1 (length prices - 1)).

Record macd_result := { histogram : number }.

(** [calculateMACD(prices)] *)
Definition calculateMACD (prices : list number) : macd_result :=
  let ema12 := calculateEMA prices 12 in
  let ema26 := calculateEMA prices 26 in
  let macd := sub (ToNumber ema12) (ToNumber ema26) in
  let signal := calculateEMA [macd] 9 in
  {| histogram := sub macd (ToNumber signal) |}.

Record bands := {
  upper : option number; middle : option number; lower : option number
}.

(** [prices.slice(-period)]: the last [period] elements, and the whole
    array when [period] is 0. *)
Definition slice_last (period : nat) (prices : list number) : list number :=
  match period with
  | O => prices
  | S _ => drop (length prices - period) prices
  end.

(** [xs.reduce(f)] without an initial value. *)
Definition reduce1 (f : number → number → number) (xs : list number)
  : completion number :=
  match xs with
  | [] => Throw TypeError
  | x :: rest => Normal (foldl f x rest)
  end.

Section Bollinger.
Variable sqrtQ : Qc → Qc.

(** [calculateBollinger(prices, period = 20)] *)
Definition calculateBollinger (prices : list number) (period : nat)
  : completion bands :=
  if (length prices <? period)%nat then
    Normal {| upper := prices !! 0%nat; middle := prices !! 0%nat;
              lower := prices !! 0%nat |}
  else
    match reduce1 add (slice_last period prices) with
    | Throw e => Throw e
    | Normal total =>
        let sma := div total (of_nat period) in
        let variance :=
          div (foldl (λ sum p, add sum (pow2 (sub p sma))) (Fin 0)
                     (slice_last period prices))
              (of_nat period) in
        let std := Math_sqrt sqrtQ variance in
        Normal {| upper := Some (add sma (mul (Fin (lit 2)) std));
                  middle := Some sma;
                  lower := Some (sub sma (mul (Fin (lit 2)) std)) |}
    end.

Record indicators :=
  { rsi : number; macd : macd_result; bollinger_bands : bands }.

(** [calculateIndicators(prices)] *)
Definition calculateIndicators (prices : list number) : completion indicators :=
  let rsi := calculateRSI prices 14 in
  let macd := calculateMACD prices in
  match calculateBollinger prices 20 with
  | Throw e => Throw e
  | Normal bb => Normal {| rsi := rsi; macd := macd; bollinger_bands := bb |}
  end.
End Bollinger.

End Indicators.


Export Indicators.

(** ** The indicator arithmetic in binary64 *)

(** [calculateRSI] and [calculateBollinger] once more, on the binary64
    floats of the language, with their rounding, overflow and NaN. *)
Module Binary64.
Import PrimFloat.
Local Open Scope float_scope.

(** The coercion applied by arithmetic to a possibly [undefined] operand. *)
Definition ToNumber (v : option float) : float :=
  match v with
  | Some x => x
  | None => nan
  end.

(** A count as a number; exact below 2^53. *)
Fixpoint of_nat (n : nat) : float :=
  match n with
  | O => 0
  | S m => of_nat m + 1
  end.

(** [prices[i - 1]]; index [-1] reads [undefined]. *)
Definition before (prices : list float) (i : nat) : option float :=
  match i with
  | O => None
  | S j => prices !! j
  end.

(** One pass of the loop body of [calculateRSI] at index [i]. *)
Definition rsi_step (prices : list float) (acc : float * float) (i : nat)
  : float * float :=
  let '(gains, losses) := acc in
  let change := ToNumber (prices !! i) - ToNumber (before prices i) in
  if 0 <? change then (gains + change, losses)
  else (gains, losses - change).

(** [calculateRSI(prices, period = 14)] *)
Definition calculateRSI (prices : list float) (period : nat) : float :=
  if (length prices <? period + 1)%nat then 50
  else
    let '(gains, losses) :=
      foldl (rsi_step prices) (0, 0) (seq (length prices - period) period) in
    let avgGain := gains / of_nat period in
    let avgLoss := losses / of_nat period in
    if avgLoss =? 0 then 100
    else
      let rs := avgGain / avgLoss in
      100 - (100 / (1 + rs)).

Record bands := {
  upper : option float; middle : option float; lower : option float
}.

(** [prices.slice(-period)] *)
Definition slice_last (period : nat) (prices : list float) : list float :=
  match period with
  | O => prices
  | S _ => drop (length prices - period) prices
  end.

(** [xs.reduce(f)] without an initial value. *)
Definition reduce1 (f : float → float → float) (xs : list float)
  : completion float :=
  match xs with
  | [] => Throw TypeError
  | x :: rest => Normal (foldl f x rest)
  end.

(** [calculateBollinger(prices, period = 20)]; [Math.pow(x, 2)] is
    [x * x] and [Math.sqrt] the square root of IEEE 754. *)
Definition calculateBollinger (prices : list float) (period : nat)
  : completion bands :=
  if (length prices <? period)%nat then
    Normal {| upper := prices !! 0%nat; middle := prices !! 0%nat;
              lower := prices !! 0%nat |}
  else
    match reduce1 PrimFloat.add (slice_last period prices) with
    | Throw e => Throw e
    | Normal total =>
        let sma := total / of_nat period in
        let variance :=
          foldl (λ sum p, sum + (p - sma) * (p - sma)) 0
                (slice_last period prices)
          / of_nat period in
        let std := sqrt variance in
        Normal {| upper := Some (sma + 2 * std);
                  middle := Some sma;
                  lower := Some (sma - 2 * std) |}
    end.





End Binary64.

(** ** JSON documents *)

#[warnings="-register-all"] Inductive json : Type :=
| JNull
| JBool (b : bool)
| JNumber (q : Qc)
| JString (s : string)
| JArray (items : list json)
| JObject (fields : list (string * json)).

(** ToBoolean, as applied by [if (c)] and [!c]. *)
Definition truthy (v : json) : bool :=
  match v with
  | JNull => false
  | JBool b => b
  | JNumber q => negb (Qceqb q 0)
  | JString s => negb (String.eqb s "")
  | JArray _ | JObject _ => true
  end.

(** The value bound to [name] in the fields of an object (keys are
    unique in a parsed document). *)
Fixpoint field (name : string) (fields : list (string * json)) : option json :=
  match fields with
  | [] => None
  | (k, v) :: rest => if String.eqb k name then Some v else field name rest
  end.

(** [v.name] for a name that is neither an index nor a builtin property
    such as [length]: [undefined] when absent, a TypeError when [v] is
    null. *)
Definition prop (v : json) (name : string) : completion (option json) :=
  match v with
  | JNull => Throw TypeError
  | JObject fields => Normal (field name fields)
  | _ => Normal None
  end.

(** ** The runtime: cache, fetcher and decision fusion *)

Record toast_call := { toast_msg : string; toast_duration : string }.

(** What [fetch(url)] and [r.json()] do in one call of [fetchAPI]:
    [fetch] rejects, or it resolves to a response with a status whose
    body parses to a document or fails to. *)
Inductive fetch_outcome : Type :=
| Rejected (e : exn)
| Responded (status : Z) (body : completion json).

(** [r.ok] *)
Definition ok (status : Z) : bool := ((200 <=? status) && (status <=? 299))%Z.

(** The environment of one call: [navigator.onLine], the network, and
    [Date.now()] at the cache operation of the call. *)
Record env := { onLine : bool; network : fetch_outcome; now : Z }.

Record outcome := {
  result : completion json;
  storage : gmap string json;
  toasts : list toast_call
}.

Record coin := {
  id : string; symbol : string; name : string; current_price : number
}.

Inductive decision_t : Type := Buy | Sell | Hold.

Record signal := {
  decision : decision_t;
  confidence : number;
  entry_price : number;
  stoploss : number;
  take_profit : number;
  explanation : string
}.

(** The signal [generateSignal] ends up with: the object parsed from the
    advisory reply, or the record built by [localSignal]. *)
Inductive produced : Type :=
| Advisory (fields : list (string * json))
| Local (s : signal).

(** [m.get(k)] on a [Map], given as its entries in insertion order;
    [None] for [undefined]. *)
Fixpoint Map_get {V} (k : string) (m : list (string * V)) : option V :=
  match m with
  | [] => None
  | (k', v) :: rest => if String.eqb k' k then Some v else Map_get k rest
  end.

(** [m.set(k, v)]: a key that is present keeps its place and gets the
    new value, a new key is added last. *)
Fixpoint Map_set {V} (k : string) (v : V) (m : list (string * V))
  : list (string * V) :=
  match m with
  | [] => [(k, v)]
  | (k', v') :: rest =>
      if String.eqb k' k then (k, v) :: rest else (k', v') :: Map_set k v rest
  end.

(** [Array.from(m.values())] *)
Definition Map_values {V} (m : list (string * V)) : list V := m.*2.

(** The entries [renderSignals] displays:
    [Array.from(STATE.signals.values()).slice(0, 3)]. *)
Definition shown {V} (signals : list (string * V)) : list V :=
  take 3 (Map_values signals).

Section Runtime.
(** ToNumber of a string, an array or an object. *)
Variable ToNumber_object : json → number.
(** [x.toFixed(1)] *)
Variable toFixed1 : number → string.

(** ToNumber of a possibly [undefined] JSON value. *)
Definition ToNumber_json (v : option json) : number :=
  match v with
  | None => NaN
  | Some JNull => Fin 0
  | Some (JBool b) => Fin (if b then 1 else 0)
  | Some (JNumber q) => Fin q
  | Some other => ToNumber_object other
  end.

Definition CACHE_TTL : number := Fin (lit 60000).

Definition data_key (k : string) : string := "cache_" +:+ k.
Definition meta_key (k : string) : string := "cache_" +:+ k +:+ "_meta".

(** [cache.get(k)], with [Date.now()] = [now]; [null] is [JNull]. *)
Definition cache_get (k : string) (now : Z) (ls : gmap string json)
  : completion json :=
  match ls !! data_key k, ls !! meta_key k with
  | Some data, Some meta =>
      match prop meta "t" with
      | Throw e => Throw e
      | Normal t =>
          Normal (if gt (sub (Fin (lit now)) (ToNumber_json t)) CACHE_TTL
                  then JNull else data)
      end
  | _, _ => Normal JNull
  end.

(** The record [{ t: Date.now() }] at time [t]. *)
Definition stamp (t : Z) : json := JObject [("t", JNumber (lit t))].

(** [cache.set(k, v)], with [Date.now()] = [now]. *)
Definition cache_set (k : string) (v : json) (now : Z) (ls : gmap string json)
  : gmap string json :=
  <[meta_key k := stamp now]> (<[data_key k := v]> ls).

(** The [try] block of [fetchAPI] up to the parsed payload. *)
Definition try_fetch (e : env) : completion json :=
  match network e with
  | Rejected x => Throw x
  | Responded status body =>
      if ok status then body else Throw (ErrorStatus status)
  end.

(** [if (c) { toast(msg, 'warning'); return c; } throw err;] *)
Definition fallback (msg : string) (err : exn) (e : env) (name : string)
    (ls : gmap string json) : outcome :=
  match cache_get name (now e) ls with
  | Throw x => {| result := Throw x; storage := ls; toasts := [] |}
  | Normal c =>
      if truthy c then
        {| result := Normal c; storage := ls;
           toasts := [ {| toast_msg := msg; toast_duration := "warning" |} ] |}
      else {| result := Throw err; storage := ls; toasts := [] |}
  end.

(** [fetchAPI(url, name)] *)
Definition fetchAPI (e : env) (url name : string) (ls : gmap string json)
  : outcome :=
  if negb (onLine e) then fallback "Using offline data" ErrorOffline e name ls
  else
    match try_fetch e with
    | Normal d =>
        {| result := Normal d; storage := cache_set name d (now e) ls;
           toasts := [] |}
    | Throw x => fallback "Using cached data" x e name ls
    end.

(** [localSignal(coin, ind)] *)
Definition localSignal (c : coin) (ind : indicators) : signal :=
  let rsi := rsi ind in
  let price := current_price c in
  let '(decision, confidence) :=
    if lt rsi (Fin (lit 30)) then (Buy, Fin (lit 75))
    else if gt rsi (Fin (lit 70)) then (Sell, Fin (lit 75))
    else (Hold, Fin (lit 50)) in
  {| decision := decision;
     confidence := confidence;
     entry_price := price;
     stoploss := mul price (Fin (dec 99 100));
     take_profit :=
       mul price (match decision with
                  | Buy => Fin (dec 102 100)
                  | _ => Fin (dec 98 100)
                  end);
     explanation := "RSI: " +:+ toFixed1 rsi |}.

(** [signal.confidence] as the comparison with 80 reads it. *)
Definition confidence_of (s : produced) : number :=
  match s with
  | Advisory fields => ToNumber_json (field "confidence" fields)
  | Local s => confidence s
  end.

Variable sqrtQ : Qc → Qc.
(** Whether [renderSignals()] returns normally on the given store
    rather than throwing (a stored advisory whose [entry_price] has no
    [toFixed], a page without the [signals] element). *)
Variable renderSignals : list (string * (produced * string)) → bool.

(** [generateSignal(coin)] from the point where the price series has
    been fetched ([prices], or the exception of [fetchAPI]) and with the
    reply of [callAI] ([ai], [None] for [null]).  Returns
    [STATE.signals] and whether [playAlert] ran; every exception ends
    in the [catch] block, which only logs. *)
Definition generateSignal (c : option coin) (prices : completion (list number))
    (ai : option (list (string * json)))
    (signals : list (string * (produced * string)))
  : list (string * (produced * string)) * bool :=
  match c with
  | None => (signals, false)
  | Some c =>
      match prices with
      | Throw _ => (signals, false)
      | Normal prices =>
          match calculateIndicators sqrtQ prices with
          | Throw _ => (signals, false)
          | Normal ind =>
              let signal :=
                match ai with
                | Some a => Advisory a
                | None => Local (localSignal c ind)
                end in
              let signals := Map_set (id c) (signal, symbol c) signals in
              if renderSignals signals
              then (signals, gt (confidence_of signal) (Fin (lit 80)))
              else (signals, false)
          end
      end
  end.
End Runtime.

(** ** Reference definitions, written from the specification *)

(** First on exact rationals, the values the specification speaks of;
    then in the arithmetic of the language, which is what the code can
    be compared with on the floats of the language. *)
Module Spec.

(** Sum of a list of rationals. *)
Definition total (l : list Qc) : Qc := foldr Qcplus 0 l.

(** The last [n] elements. *)
Definition last_n {A} (n : nat) (l : list A) : list A := drop (length l - n) l.

(** The transitions (deltas) between consecutive points. *)
Definition transitions (ps : list Qc) : list Qc :=
  zip_with (λ a b, b - a) ps (tail ps).

(** RSI as section 4.3 words it: neutral 50 below [period + 1] points;
    otherwise gains are the positive deltas and losses the absolute
    values of the negative deltas over the last [period] transitions. *)
Definition RSI (ps : list Qc) (period : nat) : Qc :=
  if (length ps <? period + 1)%nat then lit 50
  else
    let ds := last_n period (transitions ps) in
    let gains := total (filter (λ d, Qcltb 0 d) ds) in
    let losses := total (Qcabs <$> filter (λ d, Qcltb d 0) ds) in
    let avgGain := gains / lit (Z.of_nat period) in
    let avgLoss := losses / lit (Z.of_nat period) in
    if Qceqb avgLoss 0 then lit 100
    else lit 100 - lit 100 / (1 + avgGain / avgLoss).

(** EMA as section 4.3 words it for a series of at least [period]
    points: seeded with the first element, then one update per later
    price, in order. *)
Definition EMA (prices : list number) (period : nat) : option number :=
  let multiplier := div (Fin (lit 2)) (add (of_nat period) (Fin 1)) in
  match prices with
  | [] => None
  | first :: rest =>
      Some (foldl (λ ema price, add (mul (sub price ema) multiplier) ema)
                  first rest)
  end.

(** The same fold on exact rationals. *)
Definition EMA_Q (first : Qc) (rest : list Qc) (period : nat) : Qc :=
  let multiplier := lit 2 / (lit (Z.of_nat period) + 1) in
  foldl (λ ema price, (price - ema) * multiplier + ema) first rest.

(** Simple mean and population variance of a window of [n] points. *)
Definition mean (window : list Qc) (n : nat) : Qc :=
  total window / lit (Z.of_nat n).

Definition variance (window : list Qc) (n : nat) : Qc :=
  total ((λ p, (p - mean window n) * (p - mean window n)) <$> window)
  / lit (Z.of_nat n).

(** The same references in the arithmetic of the language. *)

(** Sum of a list of numbers, added up in order; 0 for the empty list. *)
Definition sum (l : list number) : number :=
  match l with
  | [] => Fin 0
  | x :: rest => foldl add x rest
  end.



(** [x >= y] *)
Definition ge (x y : number) : bool :=
  match x, y with
  | NaN, _ | _, NaN => false
  | _, _ => negb (lt x y)
  end.




End Spec.

(** ** Outcomes of the network attempt *)

(** The call gets a fresh payload [d]: the runtime is online and the
    response is 2xx with a body that parses to [d]. *)
Definition success (e : env) (d : json) : Prop :=
  onLine e = true ∧
  ∃ status, ok status = true ∧ network e = Responded status (Normal d).

(** The call cannot use the network: offline, fetch rejected (network
    error or timeout), non-2xx status, or a body that does not parse. *)
Inductive failure (e : env) : Prop :=
| failure_offline : onLine e = false → failure e
| failure_rejected x : network e = Rejected x → failure e
| failure_status status body :
    network e = Responded status body → ok status = false → failure e
| failure_parse status x :
    network e = Responded status (Throw x) → ok status = true → failure e.

(** ** Instances for closed examples *)

(** Stand-ins for the builtins of [Section Runtime]: the examples never
    coerce a string or an object and never read an explanation, and
    their page renders. *)
Definition no_ToNumber_object : json → number := λ _, NaN.
Definition no_toFixed1 : number → string := λ _, "".
Definition renders : list (string * (produced * string)) → bool :=
  λ _, true.

(** A computable square root on rationals, rounded down on the integer
    [Qnum q * Qden q]; exact on ratios of perfect squares. *)
Definition sqrt_floor (q : Qc) : Qc :=
  lit (Z.sqrt (Qnum q * Zpos (Qden q))) / lit (Zpos (Qden q)).

(** Ten points at 1 followed by ten points at 3. *)
Definition two_level_series : list Qc :=
  replicate 10 (lit 1) ++ replicate 10 (lit 3).

(** The 15-point series of section 8 of the specification. *)
Definition section8_series : list Qc :=
  lit <$> [100; 102; 101; 105; 110; 108; 112; 115; 113; 118; 120; 117; 122;
           125; 123]%Z.

Definition bitcoin : coin :=
  {| id := "bitcoin"; symbol := "btc"; name := "Bitcoin";
     current_price := Fin (lit 200) |}.

(** Environments of the closed examples. *)
Definition offline_at (t : Z) : env :=
  {| onLine := false; network := Rejected NetworkError; now := t |}.
Definition timed_out_at (t : Z) : env :=
  {| onLine := true; network := Rejected TimeoutError; now := t |}.
Definition fresh_at (t : Z) (d : json) : env :=
  {| onLine := true; network := Responded 200 (Normal d); now := t |}.

(** An advisory reply with confidence 90. *)
Definition keen_advisory : list (string * json) :=
  [("decision", JString "Buy"); ("confidence", JNumber (lit 90))].

(** ** Candles of [loadChart] *)

Record candle := {
  time : number; open : number; high : number; low : number;
  close : option number
}.

(** The callback of [data.prices.map] in [loadChart] on one price point
    [p], an array [[timestamp, price]]. *)
Definition candle_of (p : list number) : candle :=
  {| time := div (ToNumber (p !! 0%nat)) (Fin (lit 1000));
     open := mul (ToNumber (p !! 1%nat)) (Fin (dec 99 100));
     high := mul (ToNumber (p !! 1%nat)) (Fin (dec 101 100));
     low := mul (ToNumber (p !! 1%nat)) (Fin (dec 98 100));
     close := p !! 1%nat |}.

(** [data.prices.map(...)] of [loadChart] *)
Definition candles (prices : list (list number)) : list candle :=
  candle_of <$> prices.

(** ** The advisory call *)

(** The text from its first ["{"] on. *)
Fixpoint from_first_open (s : string) : option string :=
  match s with
  | EmptyString => None
  | String c rest =>
      if Ascii.eqb c "{"%char then Some s else from_first_open rest
  end.

(** The text up to its last ["}"]. *)
Fixpoint through_last_close (s : string) : option string :=
  match s with
  | EmptyString => None
  | String c rest =>
      match through_last_close rest with
      | Some t => Some (String c t)
      | None =>
          if Ascii.eqb c "}"%char then Some (String c EmptyString) else None
      end
  end.

(** [text.match(/\{[\s\S]*\}/)]: the leftmost and then longest match,
    from the first ["{"] to the last ["}"] after it; [None] for [null]. *)
Definition match_block (text : string) : option string :=
  from_first_open text ≫= through_last_close.

(** Whether the character [c] occurs in [s]. *)
Fixpoint occurs (c : ascii) (s : string) : bool :=
  match s with
  | EmptyString => false
  | String c' rest => Ascii.eqb c' c || occurs c rest
  end.

(** [data[0]] *)
Definition index0 (data : json) : completion (option json) :=
  match data with
  | JNull => Throw TypeError
  | JArray items => Normal (items !! 0%nat)
  | JObject fields => Normal (field "0" fields)
  | JString (String c _) => Normal (Some (JString (String c EmptyString)))
  | _ => Normal None
  end.

(** [data[0]?.generated_text] *)
Definition generated_text (data : json) : completion (option json) :=
  match index0 data with
  | Throw e => Throw e
  | Normal None | Normal (Some JNull) => Normal None
  | Normal (Some first) => prop first "generated_text"
  end.

(** [text?.match(/\{[\s\S]*\}/)]: only a string has [match]. *)
Definition optional_match (text : option json) : completion (option string) :=
  match text with
  | None | Some JNull => Normal None
  | Some (JString s) => Normal (match_block s)
  | Some _ => Throw TypeError
  end.

Record ai_outcome := { advisory : option json; ai_toasts : list string }.

Section Advisory.
(** [JSON.parse] on the matched text. *)
Variable JSON_parse : string → completion json.

(** The [try] block of [callAI] from the response of [fetch] on. *)
Definition callAI_try (net : fetch_outcome)
  : completion (option json) * list string :=
  match net with
  | Rejected x => (Throw x, [])
  | Responded status body =>
      if (status =? 429)%Z then (Normal None, ["AI rate limited"]%list)
      else if negb (ok status) then (Throw (ErrorStatus status), [])
      else
        match body with
        | Throw x => (Throw x, [])
        | Normal data =>
            match generated_text data with
            | Throw x => (Throw x, [])
            | Normal text =>
                match optional_match text with
                | Throw x => (Throw x, [])
                | Normal None => (Normal None, [])
                | Normal (Some block) =>
                    match JSON_parse block with
                    | Throw x => (Throw x, [])
                    | Normal v => (Normal (Some v), [])
                    end
                end
            end
        end
  end.

(** [callAI(coin, ind)]; the [catch] block returns [null]. *)
Definition callAI (net : fetch_outcome) : ai_outcome :=
  match callAI_try net with
  | (Normal v, ts) => {| advisory := v; ai_toasts := ts |}
  | (Throw _, ts) => {| advisory := None; ai_toasts := ts |}
  end.
End Advisory.

(** ** Loading the asset list *)

(** [STATE.coins] at start-up: [JSON.parse(localStorage.getItem('coins')
    || '[]')]. *)
Definition initial_coins (ls : gmap string json) : json :=
  default (JArray []) (ls !! "coins").

Definition coins_url : string :=
  "https://api.coingecko.com/api/v3/coins/markets?vs_currency=usd&per_page=50&price_change_percentage=1h".

Record load_outcome := {
  state_coins : json;              (* STATE.coins *)
  load_storage : gmap string json; (* localStorage *)
  fetch_toasts : list toast_call;  (* the toasts of fetchAPI *)
  failed_toast : option string;    (* the toast of the catch block *)
  rendered : list json;            (* the arguments of renderCoins, in order *)
  started : list json;             (* the arguments of generateSignal *)
  settled : option exn             (* the exception loadCoins rejects with *)
}.

Section Loader.
Variable ToNumber_object : json → number.
(** [e.message] *)
Variable message : exn → string.
(** The exception [renderCoins(coins)] throws, if any. *)
Variable renderCoins : json → option exn.
(** [s.slice(0, n)] on a string *)
Variable String_slice : string → nat → string.

(** [v.slice(0, n)]: arrays and strings have [slice]. *)
Definition json_slice (v : json) (n : nat) : completion json :=
  match v with
  | JArray items => Normal (JArray (take n items))
  | JString s => Normal (JString (String_slice s n))
  | _ => Throw TypeError
  end.

(** The [catch] block of [loadCoins]. *)
Definition load_failed (x : exn) (coins : json) (ls : gmap string json)
    (ts : list toast_call) (rendered : list json) : load_outcome :=
  {| state_coins := coins; load_storage := ls; fetch_toasts := ts;
     failed_toast := Some ("Load failed: " +:+ message x);
     rendered := rendered ++ [coins]%list; started := [];
     settled := renderCoins coins |}.

(** [loadCoins()], from [STATE.coins] = [coins0] and [localStorage] =
    [ls], up to the calls of [generateSignal] it starts. *)
Definition loadCoins (e : env) (coins0 : json) (ls : gmap string json)
  : load_outcome :=
  let o := fetchAPI ToNumber_object e coins_url "coins" ls in
  match result o with
  | Throw x => load_failed x coins0 (storage o) (toasts o) []
  | Normal coins =>
      match json_slice coins 20 with
      | Throw x => load_failed x coins (storage o) (toasts o) []
      | Normal first20 =>
          let ls' := <["coins" := first20]> (storage o) in
          match renderCoins first20 with
          | Some x => load_failed x coins ls' (toasts o) [first20]%list
          | None =>
              match json_slice coins 5 with
              | Normal (JArray first5) =>
                  {| state_coins := coins; load_storage := ls';
                     fetch_toasts := toasts o; failed_toast := None;
                     rendered := [first20]%list; started := first5;
                     settled := None |}
              | Normal _ =>
                  load_failed TypeError coins ls' (toasts o) [first20]%list
              | Throw x => load_failed x coins ls' (toasts o) [first20]%list
              end
          end
      end
  end.
End Loader.

(** A second coin for the closed examples. *)
Definition ethereum : coin :=
  {| id := "ethereum"; symbol := "eth"; name := "Ethereum";
     current_price := Fin (lit 10) |}.

(** A stand-in for [JSON.parse] that knows the empty object only. *)
Definition parse_empty_object (s : string) : completion json :=
  if String.eqb s "{}" then Normal (JObject []) else Throw SyntaxError.

(** A reply of the inference endpoint with free text around the block. *)
Definition chatty_reply : json :=
  JArray [JObject [("generated_text", JString "Sure: {} done")]].

(** Stand-ins for the builtins of [Section Loader]. *)
Definition no_message : exn → string := λ _, "".
Definition coins_render : json → option exn := λ _, None.
Definition byte_slice : string → nat → string :=
  λ s n, String.substring 0 n s.

(** * Properties *)

(** ** Rational arithmetic *)

Lemma Qc_eq_Qeq (x y : Qc) : x = y → (x == y)%Q.
Proof. by intros ->. Qed.

Lemma Qc_neq_Qeq (x y : Qc) : x ≠ y → ¬ (x == y)%Q.
Proof. intros H E. by apply H, Qc_is_canon. Qed.

(** Moves a goal on canonical rationals to [Q], where [lra] and [nra]
    work. *)
Ltac qc2q :=
  unfold lit, dec, Qc_of_Z, Qcle, Qclt, Qcdiv, Qcminus in *;
  repeat match goal with
  | H : @eq Qc _ _ |- _ => apply Qc_eq_Qeq in H
  | |- @eq Qc _ _ => apply Qc_is_canon
  | H : not (@eq Qc _ _) |- _ => apply Qc_neq_Qeq in H
  | |- not (@eq Qc _ _) => let E := fresh in intros E
  end;
  cbn [this Qcplus Qcmult Qcopp Qcinv Q2Qc] in *;
  rewrite ?Qred_correct in *.

Lemma Qcltb_lt (x y : Qc) : Qcltb x y = true ↔ x < y.
Proof.
  unfold Qcltb. rewrite Qclt_alt. destruct (x ?= y); naive_solver.
Qed.

Lemma Qcltb_ge (x y : Qc) : Qcltb x y = false ↔ y <= x.
Proof.
  rewrite <- not_true_iff_false, Qcltb_lt. split.
  - apply Qcnot_lt_le.
  - apply Qcle_not_lt.
Qed.

Lemma Qceqb_eq (x y : Qc) : Qceqb x y = true ↔ x = y.
Proof.
  unfold Qceqb. rewrite Qceq_alt. destruct (x ?= y); naive_solver.
Qed.

Lemma Qceqb_neq (x y : Qc) : Qceqb x y = false ↔ x ≠ y.
Proof. rewrite <- not_true_iff_false, Qceqb_eq. done. Qed.

Lemma lit_lt (a b : Z) : lit a < lit b ↔ (a < b)%Z.
Proof. unfold lit, Qc_of_Z, Qclt; cbn [this]. by rewrite <- Zlt_Qlt. Qed.

Lemma lit_le (a b : Z) : lit a <= lit b ↔ (a <= b)%Z.
Proof. unfold lit, Qc_of_Z, Qcle; cbn [this]. by rewrite <- Zle_Qle. Qed.

Lemma lit_inj (a b : Z) : lit a = lit b ↔ a = b.
Proof.
  split; [|by intros ->]. intros H. apply Qc_eq_Qeq in H.
  unfold lit, Qc_of_Z in H; cbn [this] in H. by apply inject_Z_injective.
Qed.

Lemma lit_sub (a b : Z) : lit a - lit b = lit (a - b).
Proof. qc2q. unfold Z.sub. rewrite inject_Z_plus, inject_Z_opp. ring. Qed.

Lemma lit_0 : lit 0 = 0.
Proof. by apply Qc_is_canon. Qed.

Lemma lit_pos_ne (n : nat) : (0 < n)%nat → lit (Z.of_nat n) ≠ 0.
Proof. rewrite <- lit_0, lit_inj. lia. Qed.

Lemma lit_pos (n : nat) : (0 < n)%nat → 0 < lit (Z.of_nat n).
Proof. rewrite <- lit_0, lit_lt. lia. Qed.

Lemma Qcdiv_nonneg (a b : Qc) : 0 <= a → 0 < b → 0 <= a / b.
Proof.
  intros Ha Hb. qc2q. apply Qmult_le_0_compat; [done|].
  by apply Qlt_le_weak, Qinv_lt_0_compat.
Qed.

Lemma Qcsquare_nonneg (a : Qc) : 0 <= a * a.
Proof. qc2q. nra. Qed.


(** ** Sums *)

Lemma total_nonneg (l : list Qc) : Forall (λ x, 0 <= x) l → 0 <= Spec.total l.
Proof.
  induction 1 as [|x l Hx _ IH]; simpl; [apply Qcle_refl|].
  by apply Qcplus_nonneg_nonneg.
Qed.


Lemma foldl_add_Fin (a : Qc) (l : list Qc) :
  foldl add (Fin a) (Fin <$> l) = Fin (a + Spec.total l).
Proof.
  revert a. induction l as [|x l IH]; intros a; cbn [fmap list_fmap foldl].
  - by rewrite Qcplus_0_r.
  - cbn [add]. rewrite IH. f_equal. simpl. ring.
Qed.




(** ** RSI *)

Lemma sub_Fin (a b : Qc) : sub (Fin a) (Fin b) = Fin (a - b).
Proof. reflexivity. Qed.

Lemma div_Fin (a b : Qc) : b ≠ 0 → div (Fin a) (Fin b) = Fin (a / b).
Proof. intros Hb. simpl. apply Qceqb_neq in Hb. by rewrite Hb. Qed.

Lemma transitions_lookup (ps : list Qc) (i : nat) (x y : Qc) :
  ps !! i = Some x → ps !! S i = Some y →
  Spec.transitions ps !! i = Some (y - x).
Proof.
  intros Hx Hy. unfold Spec.transitions.
  rewrite lookup_zip_with, Hx. simpl. by rewrite lookup_tail, Hy.
Qed.

Lemma transitions_length (ps : list Qc) :
  length (Spec.transitions ps) = (length ps - 1)%nat.
Proof.
  unfold Spec.transitions. rewrite length_zip_with.
  destruct ps; cbn [tail length]; lia.
Qed.

Lemma filter_bool_cons {A} (f : A → bool) (x : A) (l : list A) :
  filter (λ d, f d) (x :: l)
  = if f x then x :: filter (λ d, f d) l else filter (λ d, f d) l.
Proof. rewrite filter_cons. by destruct (f x). Qed.

(** The loop of [calculateRSI], started at index [a] for [k] rounds on a
    series of finite prices, adds to [gains] the positive transitions
    and to [losses] the absolute values of the negative ones. *)
Lemma rsi_loop (ps : list Qc) (k a : nat) (g l : Qc) :
  (S a + k ≤ length ps)%nat →
  let ds := take k (drop a (Spec.transitions ps)) in
  foldl (rsi_step (Fin <$> ps)) (Fin g, Fin l) (seq (S a) k) =
  (Fin (g + Spec.total (filter (λ d, Qcltb 0 d) ds)),
   Fin (l + Spec.total (Qcabs <$> filter (λ d, Qcltb d 0) ds))).
Proof.
  revert a g l. induction k as [|k IH]; intros a g l Hk ds; subst ds.
  - simpl. by rewrite !Qcplus_0_r.
  - destruct (lookup_lt_is_Some_2 ps (S a)) as [x Hx]; [lia|].
    destruct (lookup_lt_is_Some_2 ps a) as [y Hy]; [lia|].
    pose proof (transitions_lookup ps a y x Hy Hx) as Hd.
    rewrite (drop_S _ _ _ Hd).
    cbn [seq foldl take]. unfold rsi_step at 2. cbn [before].
    rewrite !list_lookup_fmap, Hx, Hy.
    cbn [fmap option_fmap option_map ToNumber].
    rewrite sub_Fin. unfold gt. cbn [lt].
    rewrite !filter_bool_cons.
    destruct (Qcltb 0 (x - y)) eqn:Hpos, (Qcltb (x - y) 0) eqn:Hneg;
      cbn [add]; rewrite ?sub_Fin, IH by lia;
      cbn [fmap list_fmap foldr Spec.total];
      f_equal; f_equal; unfold Spec.total; try ring.
    + apply Qcltb_lt in Hpos, Hneg.
      by destruct (Qclt_not_le _ _ Hpos); apply Qclt_le_weak.
    + rewrite Qcabs_neg by (apply Qclt_le_weak; by apply Qcltb_lt). ring.
    + apply Qcltb_ge in Hpos, Hneg.
      rewrite (Qcle_antisym _ _ Hpos Hneg). ring.
Qed.

Lemma total_filter_pos_nonneg (ds : list Qc) :
  0 <= Spec.total (filter (λ d, Qcltb 0 d) ds).
Proof.
  apply total_nonneg, Forall_forall. intros d [Hd _]%list_elem_of_filter.
  apply Qclt_le_weak, Qcltb_lt. by destruct (Qcltb 0 d).
Qed.

Lemma total_abs_nonneg (ds : list Qc) : 0 <= Spec.total (Qcabs <$> ds).
Proof.
  apply total_nonneg, Forall_fmap, Forall_forall. intros d _.
  apply Qcabs_nonneg.
Qed.

(** In the exact arithmetic of [number] the code computes, on finite
    prices, the reference RSI on rationals. *)
Lemma calculateRSI_refines (ps : list Qc) (period : nat) :
  (0 < period)%nat →
  calculateRSI (Fin <$> ps) period = Fin (Spec.RSI ps period).
Proof.
  intros Hp. unfold calculateRSI, Spec.RSI. rewrite length_fmap.
  destruct (Nat.ltb_spec (length ps) (period + 1)) as [Hlt|Hge]; [done|].
  replace (length ps - period)%nat
    with (S (length (Spec.transitions ps) - period))
    by (rewrite transitions_length; lia).
  rewrite rsi_loop by (rewrite transitions_length; lia).
  rewrite !Qcplus_0_l.
  rewrite take_ge by (rewrite length_drop, transitions_length; lia).
  fold (Spec.last_n period (Spec.transitions ps)).
  set (ds := Spec.last_n period (Spec.transitions ps)).
  set (G := Spec.total (filter (λ d, Qcltb 0 d) ds)).
  set (L := Spec.total (Qcabs <$> filter (λ d, Qcltb d 0) ds)).
  assert (HG : 0 <= G) by apply total_filter_pos_nonneg.
  assert (HL : 0 <= L) by apply total_abs_nonneg.
  unfold of_nat. fold (lit (Z.of_nat period)).
  pose proof (lit_pos_ne period Hp) as Hne.
  pose proof (lit_pos period Hp) as Hpos.
  rewrite !div_Fin by done. cbn [strict_eq].
  destruct (Qceqb (L / lit (Z.of_nat period)) 0) eqn:HavgL; [done|].
  apply Qceqb_neq in HavgL.
  assert (0 <= L / lit (Z.of_nat period)) as HaL by (by apply Qcdiv_nonneg).
  assert (0 <= G / lit (Z.of_nat period)) as HaG by (by apply Qcdiv_nonneg).
  assert (0 < L / lit (Z.of_nat period)) as HaL'.
  { destruct (Qcle_lt_or_eq _ _ HaL); [done|congruence]. }
  rewrite div_Fin by done. cbn [add].
  pose proof (Qcdiv_nonneg _ _ HaG HaL') as Hrs.
  rewrite div_Fin, sub_Fin; [done|].
  clear -Hrs. qc2q. lra.
Qed.






(** *** The range of RSI *)












(** An infinite price does the same to the numbers of this file. *)
Example calculateRSI_infinite_price :
  calculateRSI ([Fin 0; PInf] ++ replicate 13 (Fin 0)) 14 = NaN.
Proof. vm_compute. reflexivity. Qed.

(** ** EMA and MACD *)

(** The loop of [calculateEMA] reads the prices from index [a] on, one
    after the other. *)
Lemma ema_loop (prices : list number) (m : number) (k a : nat)
    (ema : number) :
  (a + k ≤ length prices)%nat →
  foldl (ema_step prices m) (Some ema) (seq a k) =
  Some (foldl (λ ema price, add (mul (sub price ema) m) ema) ema
              (take k (drop a prices))).
Proof.
  revert a ema. induction k as [|k IH]; intros a ema Hk; [done|].
  destruct (lookup_lt_is_Some_2 prices a) as [x Hx]; [lia|].
  rewrite (drop_S _ _ _ Hx). cbn [seq foldl take].
  unfold ema_step at 2. rewrite Hx. cbn [ToNumber].
  by rewrite IH by lia.
Qed.

Lemma calculateEMA_short (prices : list number) (period : nat) :
  (length prices < period)%nat → calculateEMA prices period = last prices.
Proof.
  intros Hlt. unfold calculateEMA.
  destruct (Nat.ltb_spec (length prices) period) as [_|?]; [|lia].
  rewrite last_lookup. by destruct prices.
Qed.

Lemma calculateEMA_long (prices : list number) (period : nat) :
  (period ≤ length prices)%nat →
  calculateEMA prices period = Spec.EMA prices period.
Proof.
  intros Hge. unfold calculateEMA, Spec.EMA.
  destruct (Nat.ltb_spec (length prices) period) as [?|_]; [lia|].
  destruct prices as [|first rest]; [done|].
  cbn [length lookup list_lookup]. rewrite Nat.sub_succ, Nat.sub_0_r.
  rewrite ema_loop by (simpl; lia).
  by rewrite skipn_cons, drop_0, firstn_all.
Qed.

(** C7: a series shorter than the period yields its last element; a
    series of at least [period] points yields the fold that is seeded
    with the first element and applies
    [ema := (price - ema) * (2 / (period + 1)) + ema] to the later prices
    in order. *)
Theorem calculateEMA_spec (prices : list number) (period : nat) :
  ((length prices < period)%nat → calculateEMA prices period = last prices) ∧
  ((period ≤ length prices)%nat →
   calculateEMA prices period = Spec.EMA prices period).
Proof.
  split; [apply calculateEMA_short | apply calculateEMA_long].
Qed.

Lemma calculateEMA_spec_witness :
  calculateEMA [Fin (lit 3); Fin (lit 5)] 12
  = last [Fin (lit 3); Fin (lit 5)] ∧
  calculateEMA [Fin (lit 3); Fin (lit 5)] 2
  = Spec.EMA [Fin (lit 3); Fin (lit 5)] 2.
Proof.
  split.
  - apply (proj1 (calculateEMA_spec [Fin (lit 3); Fin (lit 5)] 12)).
    simpl; lia.
  - apply (proj2 (calculateEMA_spec [Fin (lit 3); Fin (lit 5)] 2)).
    simpl; lia.
Defined.

(** On finite prices the reference fold is a fold on rationals. *)
Lemma EMA_finite (first : Qc) (rest : list Qc) (period : nat) :
  Spec.EMA (Fin <$> first :: rest) period
  = Some (Fin (Spec.EMA_Q first rest period)).
Proof.
  unfold Spec.EMA, Spec.EMA_Q. cbn [fmap list_fmap]. f_equal.
  assert (Hm : div (Fin (lit 2)) (add (of_nat period) (Fin 1))
               = Fin (lit 2 / (lit (Z.of_nat period) + 1))).
  { unfold of_nat. cbn [add]. apply div_Fin.
    pose proof (lit_le 0 (Z.of_nat period)) as H. rewrite lit_0 in H.
    assert (0 <= lit (Z.of_nat period)) by (apply H; lia).
    qc2q. lra. }
  rewrite Hm. generalize (lit 2 / (lit (Z.of_nat period) + 1)). intros m.
  revert first. induction rest as [|p rest IH]; intros first; [done|].
  cbn [fmap list_fmap foldl]. rewrite sub_Fin. cbn [mul add]. apply IH.
Qed.

(** Seeding with the first price and then also visiting it changes
    nothing on finite prices: the first update is the identity. *)
Lemma EMA_Q_whole (first : Qc) (rest : list Qc) (period : nat) :
  Spec.EMA_Q first (first :: rest) period = Spec.EMA_Q first rest period.
Proof. unfold Spec.EMA_Q. cbn [foldl]. f_equal. ring. Qed.

(** Hence, on at least [period] finite prices, [calculateEMA] is the
    fold over the whole series, seeded with its first element. *)
Lemma calculateEMA_whole_series (first : Qc) (rest : list Qc) (period : nat) :
  (period ≤ S (length rest))%nat →
  calculateEMA (Fin <$> first :: rest) period
  = Some (Fin (Spec.EMA_Q first (first :: rest) period)).
Proof.
  intros H. rewrite calculateEMA_long by (by rewrite length_fmap).
  by rewrite EMA_finite, EMA_Q_whole.
Qed.


(** The signal line of [calculateMACD] is the MACD value itself. *)
Lemma macd_signal_line (macd : number) : calculateEMA [macd] 9 = Some macd.
Proof. reflexivity. Qed.




(** ** Bollinger bands *)

Lemma reduce1_add_Fin (l : list Qc) :
  l ≠ [] → reduce1 add (Fin <$> l) = Normal (Fin (Spec.total l)).
Proof.
  destruct l as [|x l]; [done|]. intros _.
  cbn [fmap list_fmap reduce1]. by rewrite foldl_add_Fin.
Qed.

Lemma foldl_squares_Fin (m a : Qc) (l : list Qc) :
  foldl (λ sum p, add sum (pow2 (sub p (Fin m)))) (Fin a) (Fin <$> l)
  = Fin (a + Spec.total ((λ p, (p - m) * (p - m)) <$> l)).
Proof.
  revert a. induction l as [|x l IH]; intros a; cbn [fmap list_fmap foldl].
  - by rewrite Qcplus_0_r.
  - rewrite sub_Fin. cbn [pow2 mul add]. rewrite IH. f_equal. simpl. ring.
Qed.

Lemma slice_last_Fin (ps : list Qc) (n : nat) :
  (0 < n)%nat → slice_last n (Fin <$> ps) = Fin <$> Spec.last_n n ps.
Proof.
  intros Hn. unfold slice_last, Spec.last_n. destruct n; [lia|].
  by rewrite fmap_drop, length_fmap.
Qed.

Lemma last_n_length {A} (l : list A) (n : nat) :
  (n ≤ length l)%nat → length (Spec.last_n n l) = n.
Proof. intros H. unfold Spec.last_n. rewrite length_drop. lia. Qed.

Lemma variance_nonneg (w : list Qc) (n : nat) :
  (0 < n)%nat → 0 <= Spec.variance w n.
Proof.
  intros Hn. unfold Spec.variance. apply Qcdiv_nonneg; [|by apply lit_pos].
  apply total_nonneg, Forall_fmap, Forall_forall. intros p _.
  apply Qcsquare_nonneg.
Qed.

(** In the exact arithmetic of [number] the code computes, on finite
    prices and a full window, the mean, the variance and the two bands
    of the reference definitions on rationals. *)
Lemma calculateBollinger_refines (sqrtQ : Qc → Qc) (ps : list Qc) (n : nat) :
  (0 < n)%nat → (n ≤ length ps)%nat →
  let w := Spec.last_n n ps in
  let m := Spec.mean w n in
  let sd := sqrtQ (Spec.variance w n) in
  calculateBollinger sqrtQ (Fin <$> ps) n
  = Normal {| upper := Some (Fin (m + lit 2 * sd));
              middle := Some (Fin m);
              lower := Some (Fin (m - lit 2 * sd)) |}.
Proof.
  intros Hn Hlen w m sd. unfold calculateBollinger. rewrite length_fmap.
  destruct (Nat.ltb_spec (length ps) n) as [?|_]; [lia|].
  rewrite slice_last_Fin by done. fold w.
  assert (Hw : length w = n) by (by apply last_n_length).
  rewrite reduce1_add_Fin by (intros ->; simpl in Hw; lia).
  unfold of_nat. fold (lit (Z.of_nat n)).
  rewrite div_Fin by (by apply lit_pos_ne). fold (Spec.mean w n). fold m.
  rewrite foldl_squares_Fin, Qcplus_0_l.
  rewrite div_Fin by (by apply lit_pos_ne).
  unfold Math_sqrt.
  pose proof (variance_nonneg w n Hn) as Hv.
  apply Qcltb_ge in Hv. subst sd. unfold Spec.variance in *.
  fold m in Hv |- *.
  rewrite Hv. reflexivity.
Qed.

(** The same in the arithmetic of the language, on every series. *)










(** The bands of the two-level series in exact arithmetic: mean 2,
    deviation 1. *)
Example bollinger_two_level :
  calculateBollinger sqrt_floor (Fin <$> two_level_series) 20
  = Normal {| upper := Some (Fin (lit 4)); middle := Some (Fin (lit 2));
              lower := Some (Fin 0) |}.
Proof.
  rewrite calculateBollinger_refines by (simpl; lia).
  repeat f_equal; apply Qc_is_canon; vm_compute; reflexivity.
Qed.

(** The series of section 8 in exact arithmetic: gains 33, losses 10,
    RSI 3300/43. *)
Example rsi_section8 :
  calculateRSI (Fin <$> section8_series) 14 = Fin (dec 3300 43).
Proof.
  rewrite calculateRSI_refines by lia.
  apply (f_equal Fin), Qc_is_canon. vm_compute. reflexivity.
Qed.

(** ** TTL cache *)

Lemma string_length_app (s1 s2 : string) :
  String.length (s1 +:+ s2) = (String.length s1 + String.length s2)%nat.
Proof. induction s1 as [|c s1 IH]; simpl; [done|]. by rewrite IH. Qed.

Lemma string_app_inj_r (s1 s2 s : string) : s1 +:+ s = s2 +:+ s → s1 = s2.
Proof.
  revert s2. induction s1 as [|c s1 IH]; intros [|c' s2] H; simpl in H.
  - done.
  - apply (f_equal String.length) in H.
    rewrite !string_length_app in H. simpl in H. lia.
  - apply (f_equal String.length) in H.
    rewrite !string_length_app in H. simpl in H. lia.
  - simplify_eq. f_equal. by apply IH.
Qed.

(** The two items of an entry live under different keys. *)
Lemma data_key_ne_meta_key (k : string) : data_key k ≠ meta_key k.
Proof.
  unfold data_key, meta_key. intros H. apply (inj _) in H.
  apply (f_equal String.length) in H. rewrite string_length_app in H.
  simpl in H. lia.
Qed.

Lemma meta_key_data_key (k : string) : meta_key k = data_key (k +:+ "_meta").
Proof. reflexivity. Qed.

Section CacheProps.
Variable ToNumber_object : json → number.

Lemma lookup_data_cache_set (k : string) (v : json) (t : Z)
    (ls : gmap string json) :
  cache_set k v t ls !! data_key k = Some v.
Proof.
  unfold cache_set.
  rewrite lookup_insert_ne by (apply not_eq_sym, data_key_ne_meta_key).
  apply lookup_insert_eq.
Qed.

Lemma lookup_meta_cache_set (k : string) (v : json) (t : Z)
    (ls : gmap string json) :
  cache_set k v t ls !! meta_key k = Some (stamp t).
Proof. unfold cache_set. apply lookup_insert_eq. Qed.

(** [cache.get] on an entry with a well-formed time stamp. *)
Lemma cache_get_stamped (k : string) (now t : Z) (v : json)
    (ls : gmap string json) :
  ls !! data_key k = Some v → ls !! meta_key k = Some (stamp t) →
  cache_get ToNumber_object k now ls
  = Normal (if (60000 <? now - t)%Z then JNull else v).
Proof.
  intros Hd Hm. unfold cache_get. rewrite Hd, Hm.
  cbn [stamp prop field String.eqb Ascii.eqb Bool.eqb ToNumber_json].
  rewrite sub_Fin, lit_sub. unfold gt, CACHE_TTL. cbn [lt].
  destruct (Z.ltb_spec 60000 (now - t)) as [H|H].
  - apply lit_lt, Qcltb_lt in H. by rewrite H.
  - apply lit_le, Qcltb_ge in H. by rewrite H.
Qed.

Lemma cache_get_missing (k : string) (now : Z) (ls : gmap string json) :
  ls !! data_key k = None ∨ ls !! meta_key k = None →
  cache_get ToNumber_object k now ls = Normal JNull.
Proof.
  intros [H|H]; unfold cache_get; rewrite H; [done|].
  by destruct (ls !! data_key k).
Qed.

(** [get(k)] after [set(k, v)], by the age of the entry. *)
Lemma cache_get_cache_set (k : string) (v : json) (t now : Z)
    (ls : gmap string json) :
  cache_get ToNumber_object k now (cache_set k v t ls)
  = Normal (if (60000 <? now - t)%Z then JNull else v).
Proof.
  apply cache_get_stamped;
    auto using lookup_data_cache_set, lookup_meta_cache_set.
Qed.

(** Writing under other keys leaves the meta item of [k] untouched,
    unless the other key is [k] followed by ["_meta"]. *)
Lemma cache_set_other_meta (k k' : string) (v : json) (t : Z)
    (ls : gmap string json) :
  k' ≠ k → k' ≠ k +:+ "_meta" →
  cache_set k' v t ls !! meta_key k = ls !! meta_key k.
Proof.
  intros Hk Hm. unfold cache_set.
  rewrite !lookup_insert_ne; [done| |].
  - rewrite meta_key_data_key. unfold data_key. intros H.
    by apply (inj _) in H.
  - unfold meta_key. intros H. apply (inj _) in H.
    by apply string_app_inj_r in H.
Qed.

(** As long as neither [k] nor [k] followed by ["_meta"] is set, the
    meta item of [k] stays absent. *)
Lemma meta_item_never_set (k : string) (writes : list (string * json * Z))
    (ls : gmap string json) :
  Forall (λ w, w.1.1 ≠ k ∧ w.1.1 ≠ k +:+ "_meta") writes →
  ls !! meta_key k = None →
  foldl (λ ls w, cache_set w.1.1 w.1.2 w.2 ls) ls writes !! meta_key k = None.
Proof.
  intros Hw. revert ls.
  induction Hw as [|[[k' v] t] writes [Hk Hm] _ IH]; intros ls Hls; [done|].
  cbn [foldl]. apply IH. by rewrite cache_set_other_meta.
Qed.

(** C4, as the code has it: [get(k)] after [set(k, v)] returns exactly
    [v] while the age is at most 60 000 ms and [null] once it exceeds
    that.  It returns [null] as well when the store lacks the data item
    or the meta item of [k], so that a missing and an expired entry
    look the same to the caller; from an empty store this is the case
    as long as neither [k] nor [k] followed by ["_meta"] has been
    set. *)
Theorem cache_get_after_set (k : string) (now : Z) :
  (∀ v t ls, (now - t ≤ 60000)%Z →
     cache_get ToNumber_object k now (cache_set k v t ls) = Normal v) ∧
  (∀ v t ls, (60000 < now - t)%Z →
     cache_get ToNumber_object k now (cache_set k v t ls) = Normal JNull) ∧
  (∀ ls, ls !! data_key k = None ∨ ls !! meta_key k = None →
     cache_get ToNumber_object k now ls = Normal JNull) ∧
  (∀ writes : list (string * json * Z),
     Forall (λ w, w.1.1 ≠ k ∧ w.1.1 ≠ k +:+ "_meta") writes →
     cache_get ToNumber_object k now
       (foldl (λ ls w, cache_set w.1.1 w.1.2 w.2 ls) ∅ writes)
     = Normal JNull).
Proof.
  split; [|split; [|split]].
  - intros v t ls H. rewrite cache_get_cache_set.
    by destruct (Z.ltb_spec 60000 (now - t)); [lia|].
  - intros v t ls H. rewrite cache_get_cache_set.
    by destruct (Z.ltb_spec 60000 (now - t)); [|lia].
  - intros ls H. by apply cache_get_missing.
  - intros writes Hw. apply cache_get_missing. right.
    by apply meta_item_never_set.
Qed.

(** X2: from an empty store, as long as neither [k] nor [k] followed
    by ["_meta"] is ever set, [get(k)] stays [null]. *)
Lemma cache_get_never_set (k : string) (now : Z)
    (writes : list (string * json * Z)) :
  Forall (λ w, w.1.1 ≠ k ∧ w.1.1 ≠ k +:+ "_meta") writes →
  cache_get ToNumber_object k now
    (foldl (λ ls w, cache_set w.1.1 w.1.2 w.2 ls) ∅ writes)
  = Normal JNull.
Proof.
  intros Hw. apply cache_get_missing. right. by apply meta_item_never_set.
Qed.
End CacheProps.

(** C4 as stated fails for a key that was never set: keys that end in
    ["_meta"] share items with other keys.  After [set("a", 1)] and
    [set("a_meta_meta", {})], neither of which sets ["a_meta"],
    [get("a_meta")] is not [null]: it yields the time stamp of ["a"]. *)
Lemma cache_key_aliasing :
  Forall (λ w : string * json * Z, w.1.1 ≠ "a_meta")
    [("a", JNumber 1, 5%Z); ("a_meta_meta", JObject [], 5%Z)] ∧
  cache_get no_ToNumber_object "a_meta" 7
    (foldl (λ ls w, cache_set w.1.1 w.1.2 w.2 ls) ∅
       [("a", JNumber 1, 5%Z); ("a_meta_meta", JObject [], 5%Z)])
  = Normal (stamp 5) ∧
  Normal (stamp 5) ≠ Normal JNull.
Proof.
  split; [repeat constructor; discriminate|].
  split; [vm_compute; reflexivity | discriminate].
Qed.

(** ** Resilient fetcher *)

Section FetchProps.
Variable ToNumber_object : json → number.

Lemma try_fetch_success (e : env) (d : json) :
  success e d → try_fetch e = Normal d.
Proof.
  intros (_ & status & Hok & Hn). unfold try_fetch. by rewrite Hn, Hok.
Qed.

Lemma try_fetch_failure (e : env) :
  failure e → onLine e = false ∨ ∃ x, try_fetch e = Throw x.
Proof.
  intros [H|x H|status body H Hok|status x H Hok]; [by left|right..];
    unfold try_fetch; rewrite H, ?Hok; eauto.
Qed.

(** Every call either succeeds or fails in one of the four ways. *)
Lemma success_or_failure (e : env) : (∃ d, success e d) ∨ failure e.
Proof.
  destruct (onLine e) eqn:Hon; [|right; by constructor].
  destruct (network e) as [x|status [d|x]] eqn:Hn.
  - right. by econstructor 2.
  - destruct (ok status) eqn:Hok.
    + left. exists d. split; [done|]. eauto.
    + right. by econstructor 3.
  - destruct (ok status) eqn:Hok.
    + right. by econstructor 4.
    + right. by econstructor 3.
Qed.

Lemma success_not_failure (e : env) (d : json) : success e d → ¬ failure e.
Proof.
  intros (Hon & status & Hok & Hn)
    [H|x H|status' body H Hok'|status' x H Hok'];
    congruence.
Qed.

(** A failing call is the fallback, with the message and the exception
    of its branch. *)
Lemma fetchAPI_failure (e : env) (url name : string) (ls : gmap string json) :
  failure e →
  ∃ msg err,
    fetchAPI ToNumber_object e url name ls
    = fallback ToNumber_object msg err e name ls ∧
    (msg = "Using offline data" ∨ msg = "Using cached data").
Proof.
  intros Hf. unfold fetchAPI.
  destruct (onLine e) eqn:Hon; cbn [negb]; [|eauto].
  destruct (try_fetch_failure e Hf) as [?|[x Hx]]; [congruence|].
  rewrite Hx. eauto.
Qed.

Lemma fallback_storage (msg : string) (err : exn) (e : env) (name : string)
    (ls : gmap string json) :
  storage (fallback ToNumber_object msg err e name ls) = ls.
Proof.
  unfold fallback.
  destruct (cache_get ToNumber_object _ _ _) as [c|x]; [|done].
  by destruct (truthy c).
Qed.

(** C8: the cache is written exactly on the success path.  A
    successful call returns the parsed payload and stores it under the
    cache key with the time of the call, so that it is served for the
    next 60 000 ms; a failed call (offline, rejected or timed out,
    non-2xx, unparsable body) leaves the whole store as it was. *)
Theorem fetchAPI_cache_writes (e : env) (url name : string)
    (ls : gmap string json) :
  (∀ d, success e d →
     result (fetchAPI ToNumber_object e url name ls) = Normal d ∧
     storage (fetchAPI ToNumber_object e url name ls)
     = cache_set name d (now e) ls ∧
     ∀ later, (later - now e ≤ 60000)%Z →
       cache_get ToNumber_object name later
         (storage (fetchAPI ToNumber_object e url name ls)) = Normal d) ∧
  (failure e → storage (fetchAPI ToNumber_object e url name ls) = ls).
Proof.
  split.
  - intros d Hs. pose proof (try_fetch_success e d Hs) as Ht.
    destruct Hs as [Hon _]. unfold fetchAPI.
    rewrite Hon, Ht. cbn [negb result storage].
    split; [done|]. split; [done|]. intros later Hl.
    rewrite cache_get_cache_set.
    by destruct (Z.ltb_spec 60000 (later - now e)); [lia|].
  - intros Hf.
    destruct (fetchAPI_failure e url name ls Hf) as (msg & err & -> & _).
    apply fallback_storage.
Qed.

(** The exception of a failing call without usable cache: the Offline
    error when offline, the exception of the network attempt
    otherwise. *)
Lemma fetchAPI_failure_exception (e : env) (url name : string)
    (ls : gmap string json) :
  cache_get ToNumber_object name (now e) ls = Normal JNull →
  (onLine e = false →
   result (fetchAPI ToNumber_object e url name ls) = Throw ErrorOffline) ∧
  (∀ x, onLine e = true → try_fetch e = Throw x →
     result (fetchAPI ToNumber_object e url name ls) = Throw x).
Proof.
  intros Hg. unfold fetchAPI, fallback. split.
  - intros ->. cbn [negb]. by rewrite Hg.
  - intros x -> ->. cbn [negb]. by rewrite Hg.
Qed.

(** C1, as the code has it: the fallback reads through [cache.get], so
    the TTL applies to it.  A call that cannot use the network returns
    the value cached under the key when that value is truthy and at
    most 60 000 ms old.  When the store has no entry for the key, or
    the entry is older than 60 000 ms, the call throws: the Offline
    error when the runtime is offline, and otherwise the exception of
    the network attempt (the rejection of [fetch], the status error,
    or the failure to parse the body). *)
Theorem fetchAPI_fallback (e : env) (url name : string)
    (ls : gmap string json) :
  failure e →
  (∀ v t, ls !! data_key name = Some v →
     ls !! meta_key name = Some (stamp t) →
     truthy v = true → (now e - t ≤ 60000)%Z →
     result (fetchAPI ToNumber_object e url name ls) = Normal v) ∧
  (ls !! data_key name = None ∨
   (∃ v t, ls !! data_key name = Some v ∧
           ls !! meta_key name = Some (stamp t) ∧ (60000 < now e - t)%Z) →
   (∃ x, result (fetchAPI ToNumber_object e url name ls) = Throw x) ∧
   (onLine e = false →
    result (fetchAPI ToNumber_object e url name ls) = Throw ErrorOffline) ∧
   (∀ x, onLine e = true → network e = Rejected x →
      result (fetchAPI ToNumber_object e url name ls) = Throw x) ∧
   (∀ status body, onLine e = true → network e = Responded status body →
      ok status = false →
      result (fetchAPI ToNumber_object e url name ls)
      = Throw (ErrorStatus status)) ∧
   (∀ status x, onLine e = true → network e = Responded status (Throw x) →
      ok status = true →
      result (fetchAPI ToNumber_object e url name ls) = Throw x)).
Proof.
  intros Hf. split.
  - destruct (fetchAPI_failure e url name ls Hf) as (msg & err & -> & _).
    unfold fallback. intros v t Hd Hm Hv Ht.
    rewrite (cache_get_stamped ToNumber_object name (now e) t v) by done.
    destruct (Z.ltb_spec 60000 (now e - t)); [lia|]. by rewrite Hv.
  - intros Hstore.
    assert (Hg : cache_get ToNumber_object name (now e) ls = Normal JNull).
    { destruct Hstore as [Hd|(v & t & Hd & Hm & Ht)].
      - apply cache_get_missing. by left.
      - rewrite (cache_get_stamped ToNumber_object name (now e) t v) by done.
        by destruct (Z.ltb_spec 60000 (now e - t)); [|lia]. }
    destruct (fetchAPI_failure_exception e url name ls Hg) as [Hoff Hon].
    split; [|split; [done|split; [|split]]].
    + destruct (try_fetch_failure e Hf) as [H|[x Hx]].
      * eauto.
      * destruct (onLine e) eqn:E; eauto.
    + intros x H1 H2. apply Hon; [done|]. unfold try_fetch. by rewrite H2.
    + intros status body H1 H2 H3. apply Hon; [done|].
      unfold try_fetch. by rewrite H2, H3.
    + intros status x H1 H2 H3. apply Hon; [done|].
      unfold try_fetch. by rewrite H2, H3.
Qed.

(** C5, as the code has it: serving a cached value raises exactly one
    toast, 'Using offline data' when offline and 'Using cached data'
    after a failed network attempt; a fresh result raises none.  The
    value handed to the caller is the bare payload. *)
Theorem fetchAPI_degraded_toast (e : env) (url name : string)
    (ls : gmap string json) :
  (failure e →
   ∀ c, result (fetchAPI ToNumber_object e url name ls) = Normal c →
     toasts (fetchAPI ToNumber_object e url name ls)
     = {| toast_msg := if onLine e then "Using cached data"
                       else "Using offline data";
          toast_duration := "warning" |} :: []) ∧
  (∀ d, success e d → toasts (fetchAPI ToNumber_object e url name ls) = []).
Proof.
  split.
  - intros Hf c. unfold fetchAPI.
    destruct (onLine e) eqn:Hon; cbn [negb].
    + destruct (try_fetch_failure e Hf) as [?|[x Hx]]; [congruence|].
      rewrite Hx. unfold fallback.
      destruct (cache_get ToNumber_object _ _ _) as [c'|?]; [|done].
      by destruct (truthy c').
    + unfold fallback.
      destruct (cache_get ToNumber_object _ _ _) as [c'|?]; [|done].
      by destruct (truthy c').
  - intros d Hs. pose proof (try_fetch_success e d Hs) as Ht.
    destruct Hs as [Hon _]. unfold fetchAPI. by rewrite Hon, Ht.
Qed.
End FetchProps.

(** Closed instances of the cache and fetcher theorems. *)

Lemma failure_offline_at (t : Z) : failure (offline_at t).
Proof. by constructor. Qed.

Lemma failure_timed_out_at (t : Z) : failure (timed_out_at t).
Proof. by econstructor 2. Qed.

Lemma success_fresh_at (t : Z) (d : json) : success (fresh_at t d) d.
Proof. split; [done|]. by exists 200%Z. Qed.

Lemma cache_get_after_set_witness :
  cache_get no_ToNumber_object "coins" 60000
    (cache_set "coins" (JArray []) 0 ∅) = Normal (JArray []) ∧
  cache_get no_ToNumber_object "coins" 60001
    (cache_set "coins" (JArray []) 0 ∅) = Normal JNull ∧
  cache_get no_ToNumber_object "news" 5 ∅ = Normal JNull ∧
  cache_get no_ToNumber_object "coins" 9
    (foldl (λ ls w, cache_set w.1.1 w.1.2 w.2 ls) ∅
       [("news", JArray [], 1%Z); ("gas", JNumber 1, 2%Z)])
  = Normal JNull.
Proof.
  split; [|split; [|split]].
  - apply (proj1 (cache_get_after_set no_ToNumber_object "coins" 60000)
                 (JArray []) 0%Z ∅). lia.
  - apply (proj1 (proj2 (cache_get_after_set no_ToNumber_object
                           "coins" 60001)) (JArray []) 0%Z ∅). lia.
  - apply (proj1 (proj2 (proj2 (cache_get_after_set no_ToNumber_object
                                  "news" 5))) ∅). by left.
  - apply (proj2 (proj2 (proj2 (cache_get_after_set no_ToNumber_object
                                  "coins" 9)))
             [("news", JArray [], 1%Z); ("gas", JNumber 1, 2%Z)]).
    repeat constructor; discriminate.
Defined.

Lemma fetchAPI_cache_writes_witness :
  (result (fetchAPI no_ToNumber_object (fresh_at 10 (JArray []))
             "url" "coins" ∅)
   = Normal (JArray []) ∧
   storage (fetchAPI no_ToNumber_object (fresh_at 10 (JArray []))
              "url" "coins" ∅)
   = cache_set "coins" (JArray []) 10 ∅) ∧
  storage (fetchAPI no_ToNumber_object (timed_out_at 10) "url" "coins"
             (cache_set "coins" (JArray []) 0 ∅))
  = cache_set "coins" (JArray []) 0 ∅.
Proof.
  split.
  - destruct (proj1 (fetchAPI_cache_writes no_ToNumber_object
                       (fresh_at 10 (JArray [])) "url" "coins" ∅)
                    (JArray []) (success_fresh_at 10 (JArray [])))
      as (Hr & Hs & _).
    exact (conj Hr Hs).
  - apply (proj2 (fetchAPI_cache_writes no_ToNumber_object
                    (timed_out_at 10) "url" "coins"
                    (cache_set "coins" (JArray []) 0 ∅))).
    apply failure_timed_out_at.
Defined.

Lemma fetchAPI_fallback_witness :
  result (fetchAPI no_ToNumber_object (offline_at 60000) "url" "coins"
            (cache_set "coins" (JArray []) 0 ∅)) = Normal (JArray []) ∧
  result (fetchAPI no_ToNumber_object (offline_at 60001) "url" "coins"
            (cache_set "coins" (JArray []) 0 ∅)) = Throw ErrorOffline ∧
  result (fetchAPI no_ToNumber_object (timed_out_at 5) "url" "coins" ∅)
  = Throw TimeoutError.
Proof.
  split; [|split].
  - apply (proj1 (fetchAPI_fallback no_ToNumber_object (offline_at 60000)
                    "url" "coins" (cache_set "coins" (JArray []) 0 ∅)
                    (failure_offline_at 60000)) (JArray []) 0%Z);
      [apply lookup_data_cache_set | apply lookup_meta_cache_set
      | reflexivity | simpl; lia].
  - destruct (proj2 (fetchAPI_fallback no_ToNumber_object (offline_at 60001)
                       "url" "coins" (cache_set "coins" (JArray []) 0 ∅)
                       (failure_offline_at 60001)))
      as (_ & Hoff & _).
    + right. exists (JArray []), 0%Z.
      split; [apply lookup_data_cache_set|].
      split; [apply lookup_meta_cache_set | simpl; lia].
    + apply Hoff. reflexivity.
  - destruct (proj2 (fetchAPI_fallback no_ToNumber_object (timed_out_at 5)
                       "url" "coins" ∅ (failure_timed_out_at 5)))
      as (_ & _ & Hrej & _).
    + by left.
    + apply Hrej; reflexivity.
Defined.

(** C1 as stated fails: a value stored under the key 60 001 ms earlier
    is not served, neither offline nor after a timeout; the call
    throws. *)
Lemma fetchAPI_stale_entry_throws :
  cache_set "coins" (JArray []) 0 ∅ !! data_key "coins" = Some (JArray []) ∧
  failure (offline_at 60001) ∧ failure (timed_out_at 60001) ∧
  result (fetchAPI no_ToNumber_object (offline_at 60001) "url" "coins"
            (cache_set "coins" (JArray []) 0 ∅)) = Throw ErrorOffline ∧
  result (fetchAPI no_ToNumber_object (timed_out_at 60001) "url" "coins"
            (cache_set "coins" (JArray []) 0 ∅)) = Throw TimeoutError.
Proof.
  split; [apply lookup_data_cache_set|].
  split; [apply failure_offline_at|]. split; [apply failure_timed_out_at|].
  split; vm_compute; reflexivity.
Qed.

(** The fallback tests the cached value with [if (c)]: a cached payload
    that is falsy, such as [0], is not served either, whatever its
    age. *)
Example fetchAPI_falsy_entry_throws :
  result (fetchAPI no_ToNumber_object (offline_at 1) "url" "gas"
            (cache_set "gas" (JNumber 0) 0 ∅)) = Throw ErrorOffline.
Proof. vm_compute. reflexivity. Qed.

Lemma fetchAPI_degraded_toast_witness :
  toasts (fetchAPI no_ToNumber_object (offline_at 20) "url" "coins"
            (cache_set "coins" (JArray []) 0 ∅))
  = {| toast_msg := "Using offline data"; toast_duration := "warning" |}
    :: [] ∧
  toasts (fetchAPI no_ToNumber_object (fresh_at 20 (JArray []))
            "url" "coins" ∅)
  = [].
Proof.
  split.
  - apply (proj1 (fetchAPI_degraded_toast no_ToNumber_object (offline_at 20)
                    "url" "coins" (cache_set "coins" (JArray []) 0 ∅))
                 (failure_offline_at 20) (JArray [])).
    vm_compute. reflexivity.
  - apply (proj2 (fetchAPI_degraded_toast no_ToNumber_object
                    (fresh_at 20 (JArray [])) "url" "coins" ∅) (JArray [])).
    apply success_fresh_at.
Defined.

(** C5 as stated fails: a fresh call and the offline call that follows
    it deliver the same result to the caller. *)
Lemma fetchAPI_cached_result_unflagged :
  success (fresh_at 0 (JArray [])) (JArray []) ∧ failure (offline_at 1000) ∧
  result (fetchAPI no_ToNumber_object (offline_at 1000) "url" "coins"
            (storage (fetchAPI no_ToNumber_object (fresh_at 0 (JArray []))
                        "url" "coins" ∅)))
  = result (fetchAPI no_ToNumber_object (fresh_at 0 (JArray []))
              "url" "coins" ∅).
Proof.
  split; [apply success_fresh_at|]. split; [apply failure_offline_at|].
  vm_compute. reflexivity.
Qed.

(** No observation on the delivered result separates the results served
    from the cache from the fresh ones. *)
Lemma fetchAPI_no_degraded_flag :
  ¬ ∃ flagged : completion json → bool,
      ∀ e url name ls,
        (failure e →
         flagged (result (fetchAPI no_ToNumber_object e url name ls)) = true) ∧
        (∀ d, success e d →
         flagged (result (fetchAPI no_ToNumber_object e url name ls)) = false).
Proof.
  intros [flagged H].
  destruct (H (fresh_at 0 (JArray [])) "url" "coins" ∅) as [_ Hfresh].
  destruct (H (offline_at 1000) "url" "coins"
              (cache_set "coins" (JArray []) 0 ∅)) as [Hoff _].
  specialize (Hfresh _ (success_fresh_at 0 (JArray []))).
  specialize (Hoff (failure_offline_at 1000)).
  assert (E : result (fetchAPI no_ToNumber_object (offline_at 1000)
                        "url" "coins" (cache_set "coins" (JArray []) 0 ∅))
              = result (fetchAPI no_ToNumber_object (fresh_at 0 (JArray []))
                          "url" "coins" ∅))
    by (vm_compute; reflexivity).
  congruence.
Qed.

(** ** Decision fusion *)

Section FusionProps.
Variable ToNumber_object : json → number.
Variable toFixed1 : number → string.
Variable sqrtQ : Qc → Qc.
Variable renderSignals : list (string * (produced * string)) → bool.

(** C3: the signal computed locally from RSI [r] and current price
    [p]: Buy below 30, Sell above 70, Hold otherwise; confidence 75
    for Buy and Sell and 50 for Hold; entry price [p]; stop-loss
    [0.99 p]; take-profit [1.02 p] for Buy and [0.98 p] otherwise. *)
Theorem localSignal_rules (c : coin) (ind : indicators) :
  let r := rsi ind in
  let p := current_price c in
  let s := localSignal toFixed1 c ind in
  decision s = (if lt r (Fin (lit 30)) then Buy
                else if gt r (Fin (lit 70)) then Sell else Hold) ∧
  confidence s = match decision s with
                 | Buy | Sell => Fin (lit 75)
                 | Hold => Fin (lit 50)
                 end ∧
  entry_price s = p ∧
  stoploss s = mul p (Fin (dec 99 100)) ∧
  take_profit s = match decision s with
                  | Buy => mul p (Fin (dec 102 100))
                  | Sell | Hold => mul p (Fin (dec 98 100))
                  end.
Proof.
  intros r p s. subst r p s. unfold localSignal.
  destruct (lt (rsi ind) (Fin (lit 30))); [done|].
  by destruct (gt (rsi ind) (Fin (lit 70))).
Qed.

(** The same rules on a finite RSI [r] and a finite price [p], in
    rational arithmetic. *)
Lemma localSignal_finite (c : coin) (ind : indicators) (r p : Qc) :
  rsi ind = Fin r → current_price c = Fin p →
  let s := localSignal toFixed1 c ind in
  (r < lit 30 → decision s = Buy ∧ confidence s = Fin (lit 75) ∧
                take_profit s = Fin (p * dec 102 100)) ∧
  (lit 70 < r → decision s = Sell ∧ confidence s = Fin (lit 75) ∧
                take_profit s = Fin (p * dec 98 100)) ∧
  (lit 30 <= r → r <= lit 70 →
     decision s = Hold ∧ confidence s = Fin (lit 50) ∧
     take_profit s = Fin (p * dec 98 100)) ∧
  entry_price s = Fin p ∧ stoploss s = Fin (p * dec 99 100).
Proof.
  intros Hr Hp s. subst s. unfold localSignal. rewrite Hr, Hp.
  unfold gt. cbn [lt].
  assert (H3070 : lit 30 < lit 70) by (apply lit_lt; lia).
  split; [|split; [|split]].
  - intros H%Qcltb_lt. by rewrite H.
  - intros H.
    assert (H' : lit 30 <= r)
      by (apply Qclt_le_weak; by apply Qclt_trans with (lit 70)).
    apply Qcltb_ge in H'. apply Qcltb_lt in H. by rewrite H', H.
  - intros H1%Qcltb_ge H2%Qcltb_ge. by rewrite H1, H2.
  - by destruct (Qcltb r (lit 30)), (Qcltb (lit 70) r).
Qed.

Lemma localSignal_confidence (c : coin) (ind : indicators) :
  confidence (localSignal toFixed1 c ind) = Fin (lit 50) ∨
  confidence (localSignal toFixed1 c ind) = Fin (lit 75).
Proof.
  unfold localSignal.
  destruct (lt (rsi ind) (Fin (lit 30))); [by right|].
  destruct (gt (rsi ind) (Fin (lit 70))); [by right | by left].
Qed.

(** C10: the confidence of [localSignal] is 50 or 75, so it never
    exceeds 80; a call of [generateSignal] that gets no advisory raises
    no alert, hence an alert implies that an advisory was supplied. *)
Theorem localSignal_never_alerts :
  (∀ c ind, confidence (localSignal toFixed1 c ind) = Fin (lit 50) ∨
            confidence (localSignal toFixed1 c ind) = Fin (lit 75)) ∧
  (∀ c ind,
     gt (confidence (localSignal toFixed1 c ind)) (Fin (lit 80)) = false) ∧
  (∀ c prices signals,
     (generateSignal ToNumber_object toFixed1 sqrtQ renderSignals
        c prices None signals).2 = false) ∧
  (∀ c prices ai signals,
     (generateSignal ToNumber_object toFixed1 sqrtQ renderSignals
        c prices ai signals).2 = true → is_Some ai).
Proof.
  assert (Hgt : ∀ c ind,
    gt (confidence (localSignal toFixed1 c ind)) (Fin (lit 80)) = false).
  { intros c ind.
    destruct (localSignal_confidence c ind) as [-> | ->]; reflexivity. }
  assert (Hnone : ∀ c prices signals,
    (generateSignal ToNumber_object toFixed1 sqrtQ renderSignals
       c prices None signals).2 = false).
  { intros [c|] [prices|x] signals; try done.
    unfold generateSignal.
    destruct (calculateIndicators sqrtQ prices) as [ind|?]; [|done].
    destruct (renderSignals _); [|done].
    cbn [snd confidence_of]. apply Hgt. }
  split; [apply localSignal_confidence|]. split; [done|]. split; [done|].
  intros c prices [a|] signals H; [done|]. by rewrite Hnone in H.
Qed.
End FusionProps.

Lemma localSignal_never_alerts_witness :
  (generateSignal no_ToNumber_object no_toFixed1 sqrt_floor renders
     (Some bitcoin) (Normal []) (Some keen_advisory) []).2 = true ∧
  is_Some (Some keen_advisory).
Proof.
  split; [vm_compute; reflexivity|].
  apply (proj2 (proj2 (proj2
           (localSignal_never_alerts no_ToNumber_object no_toFixed1 sqrt_floor
              renders)))
           (Some bitcoin) (Normal []) (Some keen_advisory) []).
  vm_compute. reflexivity.
Defined.

(** Signals of section 8: RSI 25 gives Buy, RSI 50 gives Hold. *)
Example localSignal_rsi_25 (m : macd_result) (b : bands) :
  let s := localSignal no_toFixed1 bitcoin
             {| rsi := Fin (lit 25); macd := m; bollinger_bands := b |} in
  decision s = Buy ∧ confidence s = Fin (lit 75) ∧
  stoploss s = Fin (lit 198) ∧ take_profit s = Fin (lit 204).
Proof.
  cbn. repeat split; apply (f_equal Fin), Qc_is_canon; vm_compute;
    reflexivity.
Qed.

Example localSignal_rsi_50 (m : macd_result) (b : bands) :
  let s := localSignal no_toFixed1 bitcoin
             {| rsi := Fin (lit 50); macd := m; bollinger_bands := b |} in
  decision s = Hold ∧ confidence s = Fin (lit 50).
Proof. by cbn. Qed.

(** * Further properties of the code *)

(** ** Cache and fetcher *)

(** [fetchAPI(url, name)] leaves every item but the two of [name]. *)
Lemma fetchAPI_storage_other (T : json → number) (e : env)
    (url name key : string) (ls : gmap string json) :
  key ≠ data_key name → key ≠ meta_key name →
  storage (fetchAPI T e url name ls) !! key = ls !! key.
Proof.
  intros Hd Hm. unfold fetchAPI.
  assert (Hfb : ∀ msg err, storage (fallback T msg err e name ls) = ls)
    by (intros; apply fallback_storage).
  destruct (negb (onLine e)); [by rewrite Hfb|].
  destruct (try_fetch e) as [d|x]; [|by rewrite Hfb].
  cbn [storage]. unfold cache_set. by rewrite !lookup_insert_ne.
Qed.

(** A call of [fetchAPI] that throws has changed nothing and raised no
    toast. *)
Lemma fetchAPI_throw (T : json → number) (e : env) (url name : string)
    (ls : gmap string json) (x : exn) :
  result (fetchAPI T e url name ls) = Throw x →
  storage (fetchAPI T e url name ls) = ls ∧
  toasts (fetchAPI T e url name ls) = [].
Proof.
  unfold fetchAPI.
  assert (Hfb : ∀ msg err,
    result (fallback T msg err e name ls) = Throw x →
    storage (fallback T msg err e name ls) = ls ∧
    toasts (fallback T msg err e name ls) = []).
  { intros msg err. unfold fallback.
    destruct (cache_get T name (now e) ls) as [c|y]; [|done].
    by destruct (truthy c). }
  destruct (negb (onLine e)); [apply Hfb|].
  destruct (try_fetch e) as [d|y]; [done|apply Hfb].
Qed.

Section StoreProps.
Variable ToNumber_object : json → number.

Lemma cache_set_other_data (k k' : string) (v : json) (t : Z)
    (ls : gmap string json) :
  k' ≠ k → k ≠ k' +:+ "_meta" →
  cache_set k' v t ls !! data_key k = ls !! data_key k.
Proof.
  intros Hk Hm. unfold cache_set.
  rewrite !lookup_insert_ne; [done| |].
  - unfold data_key. intros H. by apply (inj _) in H.
  - rewrite meta_key_data_key. unfold data_key. intros H.
    apply (inj _) in H. congruence.
Qed.

(** X1: [set(k', v)] leaves [get(k)] as it was for every other key [k],
    provided neither key is the other one followed by ["_meta"]. *)
Theorem cache_set_other_key (k k' : string) (v : json) (t now : Z)
    (ls : gmap string json) :
  k' ≠ k → k' ≠ k +:+ "_meta" → k ≠ k' +:+ "_meta" →
  cache_get ToNumber_object k now (cache_set k' v t ls)
  = cache_get ToNumber_object k now ls.
Proof.
  intros Hk Hm Hm'. unfold cache_get.
  by rewrite cache_set_other_data, cache_set_other_meta.
Qed.

(** What [cache.get] returns is [null] or the data item of the key. *)
Lemma cache_get_value (k : string) (now : Z) (ls : gmap string json)
    (c : json) :
  cache_get ToNumber_object k now ls = Normal c →
  c = JNull ∨ ls !! data_key k = Some c.
Proof.
  unfold cache_get.
  destruct (ls !! data_key k) as [data|]; [|naive_solver].
  destruct (ls !! meta_key k) as [meta|]; [|naive_solver].
  destruct (prop meta "t") as [t|]; [|done].
  destruct (gt _ _); naive_solver.
Qed.

(** X3: [fetchAPI(url, name)] reads and writes only the two items of
    [name]: every other item of [localStorage] is as before, whatever
    the outcome of the call. *)
Theorem fetchAPI_other_items (e : env) (url name key : string)
    (ls : gmap string json) :
  key ≠ data_key name → key ≠ meta_key name →
  storage (fetchAPI ToNumber_object e url name ls) !! key = ls !! key.
Proof.
  apply fetchAPI_storage_other.
Qed.

(** X4: a payload fetched under a cache key is what a later call that
    cannot use the network returns for that key, whatever its URL, as
    long as the payload is truthy and at most 60 000 ms have passed;
    that call leaves the store alone.  After more than 60 000 ms the
    later call throws. *)
Theorem fetchAPI_failure_after_success (e1 e2 : env) (url1 url2 name : string)
    (d : json) (ls : gmap string json) :
  success e1 d → failure e2 → truthy d = true →
  ((now e2 - now e1 ≤ 60000)%Z →
   result (fetchAPI ToNumber_object e2 url2 name
             (storage (fetchAPI ToNumber_object e1 url1 name ls)))
   = Normal d ∧
   storage (fetchAPI ToNumber_object e2 url2 name
              (storage (fetchAPI ToNumber_object e1 url1 name ls)))
   = storage (fetchAPI ToNumber_object e1 url1 name ls)) ∧
  ((60000 < now e2 - now e1)%Z →
   ∃ x, result (fetchAPI ToNumber_object e2 url2 name
                  (storage (fetchAPI ToNumber_object e1 url1 name ls)))
        = Throw x).
Proof.
  intros Hs Hf Hd.
  assert (Hst : storage (fetchAPI ToNumber_object e1 url1 name ls)
                = cache_set name d (now e1) ls).
  { pose proof (try_fetch_success e1 d Hs) as Ht. destruct Hs as [Hon _].
    unfold fetchAPI. by rewrite Hon, Ht. }
  rewrite Hst.
  destruct (fetchAPI_failure ToNumber_object e2 url2 name
              (cache_set name d (now e1) ls) Hf) as (msg & err & -> & _).
  unfold fallback. rewrite cache_get_cache_set. split; intros Hage.
  - destruct (Z.ltb_spec 60000 (now e2 - now e1)); [lia|]. by rewrite Hd.
  - destruct (Z.ltb_spec 60000 (now e2 - now e1)); [|lia].
    cbn [truthy result]. eauto.
Qed.

(** X5: what a call that cannot use the network hands back.  A value
    it returns is truthy, is the data item stored under the key, and
    comes with a toast; when it throws it raises no toast. *)
Theorem fetchAPI_failure_result (e : env) (url name : string)
    (ls : gmap string json) :
  failure e →
  (∀ c, result (fetchAPI ToNumber_object e url name ls) = Normal c →
     truthy c = true ∧ ls !! data_key name = Some c ∧
     length (toasts (fetchAPI ToNumber_object e url name ls)) = 1%nat) ∧
  (∀ x, result (fetchAPI ToNumber_object e url name ls) = Throw x →
     toasts (fetchAPI ToNumber_object e url name ls) = []).
Proof.
  intros Hf.
  destruct (fetchAPI_failure ToNumber_object e url name ls Hf)
    as (msg & err & -> & _).
  unfold fallback.
  destruct (cache_get ToNumber_object name (now e) ls) as [c'|x'] eqn:Hg;
    [|split; [done|by intros]].
  destruct (truthy c') eqn:Hc; cbn [result toasts]; split; try done.
  intros c [= <-]. split; [done|]. split; [|done].
  destruct (cache_get_value _ _ _ _ Hg) as [->|H]; [done|exact H].
Qed.

(** X6: which exception a failing call ends in when the cache has
    nothing to serve ([cache.get] yields [null] or a falsy value): the
    Offline error when the runtime is offline, and otherwise the very
    exception of the network attempt (rejection, status error, or the
    failure to parse the body). *)
Theorem fetchAPI_failure_exn (e : env) (url name : string)
    (ls : gmap string json) (c : json) :
  cache_get ToNumber_object name (now e) ls = Normal c → truthy c = false →
  (onLine e = false →
   result (fetchAPI ToNumber_object e url name ls) = Throw ErrorOffline) ∧
  (∀ x, onLine e = true → network e = Rejected x →
     result (fetchAPI ToNumber_object e url name ls) = Throw x) ∧
  (∀ status body, onLine e = true → network e = Responded status body →
     ok status = false →
     result (fetchAPI ToNumber_object e url name ls)
     = Throw (ErrorStatus status)) ∧
  (∀ status x, onLine e = true → network e = Responded status (Throw x) →
     ok status = true →
     result (fetchAPI ToNumber_object e url name ls) = Throw x).
Proof.
  intros Hg Hc. unfold fetchAPI, fallback, try_fetch.
  split; [|split; [|split]].
  - intros ->. cbn [negb]. by rewrite Hg, Hc.
  - intros x -> ->. cbn [negb]. by rewrite Hg, Hc.
  - intros status body -> -> ->. cbn [negb]. by rewrite Hg, Hc.
  - intros status x -> -> ->. cbn [negb]. by rewrite Hg, Hc.
Qed.
End StoreProps.

Lemma cache_set_other_key_witness :
  cache_get no_ToNumber_object "coins" 7
    (cache_set "news" (JArray []) 5 (cache_set "coins" (JNumber 1) 5 ∅))
  = cache_get no_ToNumber_object "coins" 7 (cache_set "coins" (JNumber 1) 5 ∅).
Proof.
  apply (cache_set_other_key no_ToNumber_object "coins" "news");
    discriminate.
Defined.

Lemma cache_get_never_set_witness :
  cache_get no_ToNumber_object "coins" 9
    (foldl (λ ls w, cache_set w.1.1 w.1.2 w.2 ls) ∅
       [("news", JArray [], 1%Z); ("gas", JNumber 1, 2%Z)])
  = Normal JNull.
Proof.
  apply (cache_get_never_set no_ToNumber_object "coins" 9
           [("news", JArray [], 1%Z); ("gas", JNumber 1, 2%Z)]).
  repeat constructor; discriminate.
Defined.

Lemma fetchAPI_other_items_witness :
  storage (fetchAPI no_ToNumber_object (fresh_at 3 (JArray [])) "url" "news"
             (cache_set "coins" (JNumber 1) 0 ∅)) !! data_key "coins"
  = cache_set "coins" (JNumber 1) 0 ∅ !! data_key "coins".
Proof.
  apply (fetchAPI_other_items no_ToNumber_object (fresh_at 3 (JArray []))
           "url" "news" (data_key "coins")); discriminate.
Defined.

Lemma fetchAPI_failure_after_success_witness :
  result (fetchAPI no_ToNumber_object (offline_at 50) "url-15m" "chart_btc"
            (storage (fetchAPI no_ToNumber_object (fresh_at 20 (JArray []))
                        "url-5m" "chart_btc" ∅)))
  = Normal (JArray []).
Proof.
  apply (proj1 (fetchAPI_failure_after_success no_ToNumber_object
                  (fresh_at 20 (JArray [])) (offline_at 50)
                  "url-5m" "url-15m" "chart_btc" (JArray []) ∅
                  (success_fresh_at 20 (JArray [])) (failure_offline_at 50)
                  eq_refl)).
  simpl. lia.
Defined.

Lemma fetchAPI_failure_result_witness :
  truthy (JArray []) = true ∧
  cache_set "coins" (JArray []) 0 ∅ !! data_key "coins" = Some (JArray []) ∧
  length (toasts (fetchAPI no_ToNumber_object (offline_at 20) "url" "coins"
                    (cache_set "coins" (JArray []) 0 ∅))) = 1%nat.
Proof.
  apply (proj1 (fetchAPI_failure_result no_ToNumber_object (offline_at 20)
                  "url" "coins" (cache_set "coins" (JArray []) 0 ∅)
                  (failure_offline_at 20)) (JArray [])).
  vm_compute. reflexivity.
Defined.

Lemma fetchAPI_failure_exn_witness :
  result (fetchAPI no_ToNumber_object (offline_at 4) "url" "gas"
            (cache_set "gas" (JNumber 0) 0 ∅)) = Throw ErrorOffline.
Proof.
  destruct (fetchAPI_failure_exn no_ToNumber_object (offline_at 4)
              "url" "gas" (cache_set "gas" (JNumber 0) 0 ∅) (JNumber 0))
    as [H _].
  - vm_compute. reflexivity.
  - reflexivity.
  - apply H. reflexivity.
Defined.

(** ** Indicator engine *)

Lemma slice_last_nonempty (prices : list number) (period : nat) :
  (0 < period)%nat → (period ≤ length prices)%nat →
  slice_last period prices ≠ [].
Proof.
  intros Hp Hl. destruct period as [|n]; [lia|]. cbn [slice_last].
  intros H. apply (f_equal length) in H. rewrite length_drop in H.
  simpl in H. lia.
Qed.

(** X7: [calculateBollinger] throws, a TypeError from [reduce] on an
    empty array, exactly when the period is 0 and the series is empty;
    hence [calculateIndicators], which uses the period 20, never
    throws. *)
Theorem calculateBollinger_throws (sqrtQ : Qc → Qc) (prices : list number) :
  (∀ period e, calculateBollinger sqrtQ prices period = Throw e ↔
               e = TypeError ∧ period = 0%nat ∧ prices = []) ∧
  (∃ ind, calculateIndicators sqrtQ prices = Normal ind).
Proof.
  assert (H : ∀ period e, calculateBollinger sqrtQ prices period = Throw e ↔
                          e = TypeError ∧ period = 0%nat ∧ prices = []).
  { intros period e. unfold calculateBollinger.
    destruct (Nat.ltb_spec (length prices) period) as [Hlt|Hge].
    { split; [done|]. intros (_ & -> & ->). simpl in Hlt. lia. }
    destruct period as [|n].
    - cbn [slice_last]. destruct prices as [|p rest]; cbn [reduce1].
      + split; [by intros [= <-]|by intros (-> & _)].
      + split; [done|]. by intros (_ & _ & ?).
    - pose proof (slice_last_nonempty prices (S n)) as Hne.
      destruct (slice_last (S n) prices) as [|p rest] eqn:Hs;
        [exfalso; apply Hne; [lia|done|done]|].
      cbn [reduce1]. split; [done|]. by intros (_ & ? & _). }
  split; [exact H|]. unfold calculateIndicators.
  destruct (calculateBollinger sqrtQ prices 20) as [bb|e] eqn:Hb; [eauto|].
  apply H in Hb. by destruct Hb as (_ & ? & _).
Qed.

(** X8: the bands depend on the last [period] points only: whatever
    precedes a full window does not change them. *)
Theorem calculateBollinger_window (sqrtQ : Qc → Qc) (pre w : list number)
    (period : nat) :
  (0 < period)%nat → length w = period →
  calculateBollinger sqrtQ (pre ++ w) period
  = calculateBollinger sqrtQ w period.
Proof.
  intros Hp Hw. unfold calculateBollinger. rewrite length_app.
  destruct (Nat.ltb_spec (length pre + length w) period) as [?|_]; [lia|].
  destruct (Nat.ltb_spec (length w) period) as [?|_]; [lia|].
  assert (Hs : slice_last period (pre ++ w) = slice_last period w).
  { destruct period as [|n]; [lia|]. cbn [slice_last].
    rewrite length_app, Hw.
    replace (length pre + S n - S n)%nat with (length pre) by lia.
    by rewrite drop_app_length, Nat.sub_diag. }
  by rewrite Hs.
Qed.

Lemma calculateBollinger_window_witness :
  calculateBollinger sqrt_floor
    ([Fin (lit 7); NaN] ++ (Fin <$> two_level_series)) 20
  = calculateBollinger sqrt_floor (Fin <$> two_level_series) 20.
Proof.
  apply (calculateBollinger_window sqrt_floor [Fin (lit 7); NaN]
           (Fin <$> two_level_series) 20); [lia|reflexivity].
Defined.

(** X9: the histogram of [calculateMACD] is 0 or NaN on every input; it
    is never another number: the signal line is always the MACD value
    itself. *)
Theorem calculateMACD_histogram_trivial (prices : list number) :
  histogram (calculateMACD prices) = Fin 0 ∨
  histogram (calculateMACD prices) = NaN.
Proof.
  unfold calculateMACD. rewrite macd_signal_line. cbn [histogram ToNumber].
  destruct (sub (ToNumber (calculateEMA prices 12))
                (ToNumber (calculateEMA prices 26))) as [q| | |];
    [left|right..]; try reflexivity.
  rewrite sub_Fin. f_equal. ring.
Qed.

(** *** RSI *)

Lemma transitions_cons (x y : Qc) (l : list Qc) :
  Spec.transitions (x :: y :: l) = (y - x) :: Spec.transitions (y :: l).
Proof. reflexivity. Qed.

Lemma transitions_drop (n : nat) (l : list Qc) :
  drop n (Spec.transitions l) = Spec.transitions (drop n l).
Proof.
  revert l. induction n as [|n IH]; intros l; [done|].
  destruct l as [|x [|y l]]; [done|by cbn; rewrite drop_nil|].
  rewrite transitions_cons. cbn [drop]. apply IH.
Qed.

(** The deltas of the window of [calculateRSI] are the deltas of the
    last [period + 1] points. *)
Lemma last_transitions_window (pre w : list Qc) (period : nat) :
  length w = S period →
  Spec.last_n period (Spec.transitions (pre ++ w)) = Spec.transitions w.
Proof.
  intros Hw. unfold Spec.last_n.
  rewrite transitions_length, length_app, Hw.
  replace (length pre + S period - 1 - period)%nat with (length pre) by lia.
  by rewrite transitions_drop, drop_app_length.
Qed.

Lemma RSI_window (pre w : list Qc) (period : nat) :
  length w = S period →
  Spec.RSI (pre ++ w) period = Spec.RSI w period.
Proof.
  intros Hw. unfold Spec.RSI. rewrite length_app, Hw.
  destruct (Nat.ltb_spec (length pre + S period) (period + 1)) as [?|_];
    [lia|].
  destruct (Nat.ltb_spec (S period) (period + 1)) as [?|_]; [lia|].
  rewrite (last_transitions_window pre w period Hw).
  pose proof (last_transitions_window [] w period Hw) as H.
  cbn [app] in H. by rewrite H.
Qed.

(** X10: on finite prices RSI depends on the last 15 points only. *)
Theorem calculateRSI_window (pre w : list Qc) :
  length w = 15%nat →
  calculateRSI (Fin <$> pre ++ w) 14 = calculateRSI (Fin <$> w) 14.
Proof.
  intros Hw. rewrite !calculateRSI_refines by lia.
  by rewrite (RSI_window pre w 14 Hw).
Qed.

Lemma calculateRSI_window_witness :
  calculateRSI (Fin <$> [lit 1; lit 900] ++ section8_series) 14
  = calculateRSI (Fin <$> section8_series) 14.
Proof.
  apply (calculateRSI_window [lit 1; lit 900] section8_series). reflexivity.
Defined.

Lemma filter_bool_nil {A} (P : A → bool) (l : list A) :
  Forall (λ x, P x = false) l → filter (λ x, P x) l = [].
Proof.
  induction 1 as [|x l Hx _ IH]; [done|].
  rewrite filter_bool_cons, Hx. exact IH.
Qed.

Lemma Qcdiv_pos (a b : Qc) : 0 < a → 0 < b → 0 < a / b.
Proof.
  intros Ha Hb. qc2q. apply Qmult_lt_0_compat; [done|].
  by apply Qinv_lt_0_compat.
Qed.

Lemma total_pos (l : list Qc) :
  Forall (λ x, 0 <= x) l → (∃ x, x ∈ l ∧ 0 < x) → 0 < Spec.total l.
Proof.
  induction 1 as [|x l Hx Hl IH]; intros (y & Hy & Hpos).
  { by apply elem_of_nil in Hy. }
  cbn [Spec.total foldr]. apply elem_of_cons in Hy as [->|Hy].
  - apply Qcplus_pos_nonneg; [done|]. by apply total_nonneg.
  - apply Qcplus_nonneg_pos; [done|]. apply IH. eauto.
Qed.

(** RSI of a window without falling step is 100. *)
Lemma RSI_no_loss (ps : list Qc) (period : nat) :
  (period + 1 ≤ length ps)%nat →
  Forall (λ d, 0 <= d) (Spec.last_n period (Spec.transitions ps)) →
  Spec.RSI ps period = lit 100.
Proof.
  intros Hl Hds. unfold Spec.RSI.
  destruct (Nat.ltb_spec (length ps) (period + 1)) as [?|_]; [lia|].
  rewrite (filter_bool_nil (λ d, Qcltb d 0)).
  - cbn [fmap list_fmap Spec.total foldr]. unfold Qcdiv.
    by rewrite Qcmult_0_l.
  - eapply Forall_impl; [exact Hds|]. intros d Hd. by apply Qcltb_ge.
Qed.

(** RSI of a window without rising step and with a falling one is 0. *)
Lemma RSI_no_gain (ps : list Qc) (period : nat) :
  (0 < period)%nat → (period + 1 ≤ length ps)%nat →
  Forall (λ d, d <= 0) (Spec.last_n period (Spec.transitions ps)) →
  (∃ d, d ∈ Spec.last_n period (Spec.transitions ps) ∧ d < 0) →
  Spec.RSI ps period = 0.
Proof.
  intros Hp Hl Hds (d & Hd & Hneg). unfold Spec.RSI.
  destruct (Nat.ltb_spec (length ps) (period + 1)) as [?|_]; [lia|].
  set (ds := Spec.last_n period (Spec.transitions ps)) in *.
  rewrite (filter_bool_nil (λ d, Qcltb 0 d)).
  2:{ eapply Forall_impl; [exact Hds|]. intros x Hx. by apply Qcltb_ge. }
  cbn [Spec.total foldr].
  assert (HL : 0 < Spec.total (Qcabs <$> filter (λ d, Qcltb d 0) ds)).
  { apply total_pos.
    - apply Forall_fmap, Forall_forall. intros x _. apply Qcabs_nonneg.
    - exists (Qcabs d). split.
      + apply list_elem_of_fmap_2, list_elem_of_filter. split; [|done].
        apply Is_true_true, Qcltb_lt, Hneg.
      + rewrite Qcabs_neg by (by apply Qclt_le_weak).
        apply Qclt_minus_iff in Hneg. by rewrite Qcplus_0_l in Hneg. }
  set (L := Spec.total (Qcabs <$> filter (λ d, Qcltb d 0) ds)) in *.
  pose proof (Qcdiv_pos L (lit (Z.of_nat period)) HL (lit_pos _ Hp)) as Ha.
  destruct (Qceqb (L / lit (Z.of_nat period)) 0) eqn:E.
  { apply Qceqb_eq in E. rewrite E in Ha. by apply Qclt_not_eq in Ha. }
  unfold Qcdiv at 3. rewrite Qcmult_0_l.
  unfold Qcdiv at 2. rewrite Qcmult_0_l.
  apply Qc_is_canon. reflexivity.
Qed.

(** The code on a window that never falls. *)
Lemma calculateRSI_no_fall (ps : list Qc) :
  (15 ≤ length ps)%nat →
  Forall (λ d, 0 <= d) (Spec.last_n 14 (Spec.transitions ps)) →
  calculateRSI (Fin <$> ps) 14 = Fin (lit 100).
Proof.
  intros Hl H. rewrite calculateRSI_refines by lia.
  by rewrite RSI_no_loss by (done || lia).
Qed.

(** The code on a window that never rises: 0 when a step falls, 100
    when the window is flat. *)
Lemma calculateRSI_no_rise (ps : list Qc) :
  (15 ≤ length ps)%nat →
  Forall (λ d, d <= 0) (Spec.last_n 14 (Spec.transitions ps)) →
  (calculateRSI (Fin <$> ps) 14 = Fin 0 ∧
   ∃ d, d ∈ Spec.last_n 14 (Spec.transitions ps) ∧ d < 0) ∨
  calculateRSI (Fin <$> ps) 14 = Fin (lit 100).
Proof.
  intros Hl H.
  destruct (Forall_Exists_dec (λ d, 0 <= d) (λ d, d < 0)
              (λ d, match Qclt_le_dec d 0 with
                    | left Hd => right Hd
                    | right Hd => left Hd
                    end)
              (Spec.last_n 14 (Spec.transitions ps))) as [Hflat|Hfall].
  - right. by apply calculateRSI_no_fall.
  - left. apply Exists_exists in Hfall.
    split; [|done]. rewrite calculateRSI_refines by lia.
    by rewrite RSI_no_gain by (done || lia).
Qed.

(** X11: on finite prices with at least 15 points, RSI is 100 when no
    step of the window falls (a flat window included); when no step of
    the window rises it is 0 or 100, and 0 only if some step falls. *)
Theorem calculateRSI_extremes (ps : list Qc) :
  (15 ≤ length ps)%nat →
  (Forall (λ d, 0 <= d) (Spec.last_n 14 (Spec.transitions ps)) →
   calculateRSI (Fin <$> ps) 14 = Fin (lit 100)) ∧
  (Forall (λ d, d <= 0) (Spec.last_n 14 (Spec.transitions ps)) →
   (calculateRSI (Fin <$> ps) 14 = Fin 0 ∨
    calculateRSI (Fin <$> ps) 14 = Fin (lit 100)) ∧
   (calculateRSI (Fin <$> ps) 14 = Fin 0 →
    ∃ d, d ∈ Spec.last_n 14 (Spec.transitions ps) ∧ d < 0)).
Proof.
  intros Hl. split; [by apply calculateRSI_no_fall|]. intros H.
  destruct (calculateRSI_no_rise ps Hl H) as [[-> Hd]| ->].
  - split; [by left|done].
  - split; [by right|]. intros [= E].
Qed.

Lemma calculateRSI_extremes_witness :
  calculateRSI (Fin <$> replicate 15 (lit 7)) 14 = Fin (lit 100) ∧
  (calculateRSI (Fin <$> (replicate 14 (lit 7) ++ [lit 6])) 14 = Fin 0 ∨
   calculateRSI (Fin <$> (replicate 14 (lit 7) ++ [lit 6])) 14
   = Fin (lit 100)).
Proof.
  split.
  - apply (proj1 (calculateRSI_extremes (replicate 15 (lit 7))
                    ltac:(simpl; lia))).
    vm_compute. repeat constructor; discriminate.
  - apply (proj2 (calculateRSI_extremes (replicate 14 (lit 7) ++ [lit 6])
                    ltac:(simpl; lia))).
    vm_compute. repeat constructor; discriminate.
Defined.

(** ** Decision fusion *)

Lemma calculateIndicators_total (sqrtQ : Qc → Qc) (prices : list number) :
  ∃ bb, calculateBollinger sqrtQ prices 20 = Normal bb ∧
        calculateIndicators sqrtQ prices
        = Normal {| rsi := calculateRSI prices 14;
                    macd := calculateMACD prices;
                    bollinger_bands := bb |}.
Proof.
  unfold calculateIndicators, calculateBollinger.
  destruct (Nat.ltb_spec (length prices) 20) as [Hlt|Hge]; [eauto|].
  pose proof (slice_last_nonempty prices 20) as Hne.
  destruct (slice_last 20 prices) as [|p rest] eqn:Hs;
    [exfalso; apply Hne; [lia|done|done]|].
  cbn [reduce1]. eauto.
Qed.

(** *** The [Map] of signals *)

Lemma Map_get_set {V} (k k' : string) (v : V) (m : list (string * V)) :
  Map_get k (Map_set k' v m)
  = if String.eqb k' k then Some v else Map_get k m.
Proof.
  induction m as [|[k0 v0] m IH]; cbn [Map_set Map_get]; [done|].
  destruct (String.eqb_spec k0 k') as [->|Hk0]; cbn [Map_get].
  - by destruct (String.eqb k' k).
  - rewrite IH. destruct (String.eqb_spec k0 k) as [->|_]; [|done].
    by destruct (String.eqb_spec k' k) as [->|_].
Qed.

Lemma Map_set_set {V} (k : string) (v1 v2 : V) (m : list (string * V)) :
  Map_set k v2 (Map_set k v1 m) = Map_set k v2 m.
Proof.
  induction m as [|[k0 v0] m IH]; cbn [Map_set].
  - by rewrite String.eqb_refl.
  - destruct (String.eqb k0 k) eqn:E; cbn [Map_set].
    + by rewrite String.eqb_refl.
    + by rewrite E, IH.
Qed.

(** A new key goes last. *)
Lemma Map_set_new {V} (k : string) (v : V) (m : list (string * V)) :
  Map_get k m = None → Map_set k v m = m ++ [(k, v)].
Proof.
  induction m as [|[k0 v0] m IH]; cbn [Map_get Map_set app]; [done|].
  destruct (String.eqb k0 k); [done|]. intros H. by rewrite IH.
Qed.

(** Beyond the third place an added entry is not displayed. *)
Lemma shown_app {V} (m extra : list (string * V)) :
  (3 ≤ length m)%nat → shown (m ++ extra) = shown m.
Proof.
  intros Hm. unfold shown, Map_values. rewrite fmap_app.
  rewrite take_app_le by (rewrite length_fmap; lia). done.
Qed.

Section FusionMore.
Variable ToNumber_object : json → number.
Variable toFixed1 : number → string.
Variable sqrtQ : Qc → Qc.
Variable renderSignals : list (string * (produced * string)) → bool.

(** X14: the price levels of the local signal for a price that is not
    negative.  The stop-loss is never above the entry price; the
    take-profit is never below the entry price for Buy, and for Sell
    and Hold it is never above the stop-loss. *)
Theorem localSignal_levels (c : coin) (ind : indicators) (p : Qc) :
  current_price c = Fin p → 0 <= p →
  Spec.ge (entry_price (localSignal toFixed1 c ind))
          (stoploss (localSignal toFixed1 c ind)) = true ∧
  (decision (localSignal toFixed1 c ind) = Buy →
   Spec.ge (take_profit (localSignal toFixed1 c ind))
           (entry_price (localSignal toFixed1 c ind)) = true) ∧
  (decision (localSignal toFixed1 c ind) ≠ Buy →
   Spec.ge (stoploss (localSignal toFixed1 c ind))
           (take_profit (localSignal toFixed1 c ind)) = true).
Proof.
  intros Hc Hp. unfold localSignal. rewrite Hc.
  assert (H99 : p * dec 99 100 <= p)
    by (clear -Hp; qc2q; change (Qred (99 # 100)) with (99 # 100)%Q; lra).
  assert (H102 : p <= p * dec 102 100)
    by (clear -Hp; qc2q; change (Qred (102 # 100)) with (51 # 50)%Q; lra).
  assert (H98 : p * dec 98 100 <= p * dec 99 100).
  { clear -Hp. qc2q. change (Qred (99 # 100)) with (99 # 100)%Q.
    change (Qred (98 # 100)) with (49 # 50)%Q. lra. }
  apply Qcltb_ge in H99, H102, H98.
  destruct (lt (rsi ind) (Fin (lit 30)));
    [|destruct (gt (rsi ind) (Fin (lit 70)))];
    cbn [decision entry_price stoploss take_profit mul Spec.ge lt];
    rewrite ?H99, ?H102, ?H98; repeat split; done.
Qed.

(** X15: what the local rule makes of a price series.  With fewer than
    15 points RSI is the neutral 50 and the signal is Hold with
    confidence 50.  With at least 15 finite prices whose last 14 steps
    never fall (a flat series included) RSI is 100 and the signal is
    Sell; when they never rise the signal is Buy or Sell, never Hold,
    and Buy only if some step falls. *)
Theorem localSignal_of_series (c : coin) :
  (∀ prices ind, (length prices < 15)%nat →
     calculateIndicators sqrtQ prices = Normal ind →
     decision (localSignal toFixed1 c ind) = Hold ∧
     confidence (localSignal toFixed1 c ind) = Fin (lit 50)) ∧
  (∀ ps ind, (15 ≤ length ps)%nat →
     Forall (λ d, 0 <= d) (Spec.last_n 14 (Spec.transitions ps)) →
     calculateIndicators sqrtQ (Fin <$> ps) = Normal ind →
     decision (localSignal toFixed1 c ind) = Sell) ∧
  (∀ ps ind, (15 ≤ length ps)%nat →
     Forall (λ d, d <= 0) (Spec.last_n 14 (Spec.transitions ps)) →
     calculateIndicators sqrtQ (Fin <$> ps) = Normal ind →
     decision (localSignal toFixed1 c ind) ≠ Hold ∧
     (decision (localSignal toFixed1 c ind) = Buy →
      ∃ d, d ∈ Spec.last_n 14 (Spec.transitions ps) ∧ d < 0)).
Proof.
  split; [|split].
  - intros prices ind Hl Hind.
    destruct (calculateIndicators_total sqrtQ prices) as (bb & _ & E).
    rewrite E in Hind. injection Hind as <-.
    unfold localSignal. cbn [rsi]. unfold calculateRSI.
    destruct (Nat.ltb_spec (length prices) (14 + 1)) as [_|?]; [|lia].
    done.
  - intros ps ind Hl Hds Hind.
    destruct (calculateIndicators_total sqrtQ (Fin <$> ps)) as (bb & _ & E).
    rewrite E in Hind. injection Hind as <-.
    unfold localSignal. cbn [rsi].
    by rewrite calculateRSI_no_fall.
  - intros ps ind Hl Hds Hind.
    destruct (calculateIndicators_total sqrtQ (Fin <$> ps)) as (bb & _ & E).
    rewrite E in Hind. injection Hind as <-.
    unfold localSignal. cbn [rsi].
    destruct (calculateRSI_no_rise ps Hl Hds) as [[-> Hd]| ->]; by split.
Qed.

(** What [generateSignal] stores does not depend on the store. *)
Lemma generateSignal_store (c : coin) (prices : completion (list number))
    (ai : option (list (string * json))) :
  ∃ entry, ∀ signals : list (string * (produced * string)),
    (generateSignal ToNumber_object toFixed1 sqrtQ renderSignals
       (Some c) prices ai signals).1
    = match prices with
      | Throw _ => signals
      | Normal _ => Map_set (id c) (entry, symbol c) signals
      end.
Proof.
  unfold generateSignal. destruct prices as [ps|x]; [|by exists (Advisory [])].
  destruct (calculateIndicators_total sqrtQ ps) as (bb & _ & ->).
  eexists. intros signals. by destruct (renderSignals _).
Qed.

(** X16: [generateSignal] writes the entry of its own asset only.
    Every other entry of [STATE.signals] stays as it was; without a
    coin, or when the price series could not be fetched, the store is
    unchanged and no alert is raised; otherwise the entry of the asset
    holds the symbol of the coin. *)
Theorem generateSignal_own_entry (c : option coin)
    (prices : completion (list number)) (ai : option (list (string * json)))
    (signals : list (string * (produced * string))) :
  (∀ other, (∀ c', c = Some c' → other ≠ id c') →
     Map_get other
       (generateSignal ToNumber_object toFixed1 sqrtQ renderSignals
          c prices ai signals).1
     = Map_get other signals) ∧
  (c = None ∨ (∃ x, prices = Throw x) →
     generateSignal ToNumber_object toFixed1 sqrtQ renderSignals
       c prices ai signals = (signals, false)) ∧
  (∀ c' ps, c = Some c' → prices = Normal ps →
     snd <$> Map_get (id c')
               (generateSignal ToNumber_object toFixed1 sqrtQ renderSignals
                  c prices ai signals).1
     = Some (symbol c')).
Proof.
  split; [|split].
  - intros other Ho. destruct c as [c'|]; [|done].
    destruct (generateSignal_store c' prices ai) as [entry ->].
    destruct prices as [ps|x]; [|done].
    rewrite Map_get_set.
    destruct (String.eqb_spec (id c') other) as [E|_]; [|done].
    by destruct (Ho c' eq_refl).
  - intros [->|[x ->]]; [done|]. by destruct c.
  - intros c' ps -> ->.
    destruct (generateSignal_store c' (Normal ps) ai) as [entry ->].
    by rewrite Map_get_set, String.eqb_refl.
Qed.

(** X17: the order in which signal generation completes.  For two
    different assets the store holds the same entries whichever of the
    two completes first, but not in the same places: when neither has
    an entry yet, each is added last, in the order of completion.  For
    one asset the later completion replaces the entry of the earlier
    one, in its place.  Of the store [renderSignals] displays the first
    three entries, so that the signal of a new asset is not displayed
    once three assets have entries. *)
Theorem generateSignal_order (c1 c2 : coin)
    (p1 p2 : completion (list number))
    (ai1 ai2 : option (list (string * json)))
    (signals : list (string * (produced * string))) :
  let run c p ai s :=
    (generateSignal ToNumber_object toFixed1 sqrtQ renderSignals
       (Some c) p ai s).1 in
  (id c1 ≠ id c2 →
   ∀ k, Map_get k (run c2 p2 ai2 (run c1 p1 ai1 signals))
        = Map_get k (run c1 p1 ai1 (run c2 p2 ai2 signals))) ∧
  (id c1 ≠ id c2 →
   Map_get (id c1) signals = None → Map_get (id c2) signals = None →
   (∃ ps, p1 = Normal ps) → (∃ ps, p2 = Normal ps) →
   (run c2 p2 ai2 (run c1 p1 ai1 signals)).*1
   = signals.*1 ++ [id c1; id c2] ∧
   (run c1 p1 ai1 (run c2 p2 ai2 signals)).*1
   = signals.*1 ++ [id c2; id c1]) ∧
  (id c1 = id c2 → (∃ ps, p2 = Normal ps) →
   run c2 p2 ai2 (run c1 p1 ai1 signals) = run c2 p2 ai2 signals) ∧
  (Map_get (id c1) signals = None → (3 ≤ length signals)%nat →
   shown (run c1 p1 ai1 signals) = shown signals).
Proof.
  intros run. subst run. cbv beta.
  destruct (generateSignal_store c1 p1 ai1) as [entry1 H1].
  destruct (generateSignal_store c2 p2 ai2) as [entry2 H2].
  rewrite !H1, !H2. split; [|split; [|split]].
  - intros Hne k. destruct p1 as [ps1|x1], p2 as [ps2|x2]; try done.
    rewrite !Map_get_set.
    destruct (String.eqb_spec (id c2) k) as [E2|_],
             (String.eqb_spec (id c1) k) as [E1|_]; congruence.
  - intros Hne Hn1 Hn2 [ps1 ->] [ps2 ->].
    assert (Hn12 : Map_get (id c2) (signals ++ [(id c1, (entry1, symbol c1))])
                   = None).
    { rewrite <- (Map_set_new _ _ _ Hn1), Map_get_set.
      by apply String.eqb_neq in Hne as ->. }
    assert (Hn21 : Map_get (id c1) (signals ++ [(id c2, (entry2, symbol c2))])
                   = None).
    { rewrite <- (Map_set_new _ _ _ Hn2), Map_get_set.
      apply not_eq_sym in Hne. by apply String.eqb_neq in Hne as ->. }
    rewrite (Map_set_new _ _ signals Hn1), (Map_set_new _ _ signals Hn2).
    rewrite (Map_set_new _ _ _ Hn12), (Map_set_new _ _ _ Hn21).
    by rewrite !fmap_app, <- !(assoc_L (++)).
  - intros Heq [ps2 ->]. destruct p1 as [ps1|x1]; [|done].
    rewrite Heq. by rewrite Map_set_set.
  - intros Hn Hlen. destruct p1 as [ps1|x1]; [|done].
    rewrite (Map_set_new _ _ _ Hn). by apply shown_app.
Qed.

(** X18: with an advisory the alert depends on its [confidence] field
    alone and on the page rendering: for a numeric confidence [q] the
    alert is raised exactly when [renderSignals] returns and [q] is
    above 80; an advisory without that field never raises it. *)
Theorem generateSignal_advisory_alert (c : coin) (ps : list number)
    (a : list (string * json))
    (signals : list (string * (produced * string))) :
  (∀ q, field "confidence" a = Some (JNumber q) →
     ((generateSignal ToNumber_object toFixed1 sqrtQ renderSignals
         (Some c) (Normal ps) (Some a) signals).2 = true ↔
      renderSignals (Map_set (id c) (Advisory a, symbol c) signals) = true ∧
      lit 80 < q)) ∧
  (field "confidence" a = None →
     (generateSignal ToNumber_object toFixed1 sqrtQ renderSignals
        (Some c) (Normal ps) (Some a) signals).2 = false).
Proof.
  unfold generateSignal.
  destruct (calculateIndicators_total sqrtQ ps) as (bb & _ & ->).
  split.
  - intros q Hq.
    destruct (renderSignals _); cbn [snd confidence_of];
      [|split; [done|by intros [? _]]].
    rewrite Hq. cbn [ToNumber_json]. unfold gt. cbn [lt].
    rewrite Qcltb_lt. split; [by split|by intros [_ ?]].
  - intros Hq. destruct (renderSignals _); [|done].
    cbn [snd confidence_of]. by rewrite Hq.
Qed.
End FusionMore.

Lemma localSignal_levels_witness :
  Spec.ge (entry_price (localSignal no_toFixed1 bitcoin
                          (Build_indicators (Fin (lit 25))
                             (Build_macd_result NaN)
                             (Build_bands None None None))))
          (stoploss (localSignal no_toFixed1 bitcoin
                       (Build_indicators (Fin (lit 25))
                          (Build_macd_result NaN)
                          (Build_bands None None None)))) = true.
Proof.
  destruct (localSignal_levels no_toFixed1 bitcoin
              (Build_indicators (Fin (lit 25)) (Build_macd_result NaN)
                 (Build_bands None None None)) (lit 200)) as [H _].
  - reflexivity.
  - rewrite <- lit_0. apply lit_le. lia.
  - exact H.
Defined.

Lemma localSignal_of_series_witness :
  ∃ ind,
    calculateIndicators sqrt_floor (Fin <$> replicate 15 (lit 7)) = Normal ind ∧
    decision (localSignal no_toFixed1 bitcoin ind) = Sell.
Proof.
  destruct (calculateIndicators_total sqrt_floor (Fin <$> replicate 15 (lit 7)))
    as (bb & _ & E).
  eexists. split; [exact E|].
  apply (proj1 (proj2 (localSignal_of_series no_toFixed1 sqrt_floor bitcoin))
           (replicate 15 (lit 7))); [simpl; lia | | exact E].
  vm_compute. repeat constructor; discriminate.
Defined.

Lemma generateSignal_own_entry_witness :
  Map_get "ethereum"
    (generateSignal no_ToNumber_object no_toFixed1 sqrt_floor renders
       (Some bitcoin) (Normal []) None
       [("ethereum", (Advisory keen_advisory, "eth"))]).1
  = Map_get "ethereum" [("ethereum", (Advisory keen_advisory, "eth"))].
Proof.
  apply (proj1 (generateSignal_own_entry no_ToNumber_object no_toFixed1
                  sqrt_floor renders (Some bitcoin) (Normal []) None
                  [("ethereum", (Advisory keen_advisory, "eth"))])).
  intros c' [= <-]. discriminate.
Defined.

Lemma generateSignal_order_witness :
  (generateSignal no_ToNumber_object no_toFixed1 sqrt_floor renders
     (Some ethereum) (Normal []) None
     (generateSignal no_ToNumber_object no_toFixed1 sqrt_floor renders
        (Some bitcoin) (Normal []) (Some keen_advisory) []).1).1.*1
  = [] ++ ["bitcoin"; "ethereum"] ∧
  (generateSignal no_ToNumber_object no_toFixed1 sqrt_floor renders
     (Some bitcoin) (Normal []) (Some keen_advisory)
     (generateSignal no_ToNumber_object no_toFixed1 sqrt_floor renders
        (Some ethereum) (Normal []) None []).1).1.*1
  = [] ++ ["ethereum"; "bitcoin"].
Proof.
  apply (proj1 (proj2 (generateSignal_order no_ToNumber_object no_toFixed1
                         sqrt_floor renders bitcoin ethereum
                         (Normal []) (Normal [])
                         (Some keen_advisory) None [])));
    [discriminate | reflexivity | reflexivity | by exists [] | by exists []].
Defined.

Lemma generateSignal_advisory_alert_witness :
  (generateSignal no_ToNumber_object no_toFixed1 sqrt_floor renders
     (Some bitcoin) (Normal []) (Some keen_advisory) []).2 = true ↔
  renders (Map_set (id bitcoin) (Advisory keen_advisory, symbol bitcoin) [])
  = true ∧
  lit 80 < lit 90.
Proof.
  apply (proj1 (generateSignal_advisory_alert no_ToNumber_object no_toFixed1
                  sqrt_floor renders bitcoin [] keen_advisory []) (lit 90)).
  reflexivity.
Defined.

(** ** The advisory call *)

Lemma string_app_cons (c : ascii) (s t : string) :
  String c s +:+ t = String c (s +:+ t).
Proof. reflexivity. Qed.

Lemma string_app_nil (t : string) : EmptyString +:+ t = t.
Proof. reflexivity. Qed.

Lemma from_first_open_spec (s r : string) :
  from_first_open s = Some r ↔
  ∃ pre rest, s = pre +:+ String "{" rest ∧ r = String "{" rest ∧
              occurs "{" pre = false.
Proof.
  split.
  - revert r. induction s as [|c s IH]; intros r; [done|]. cbn [from_first_open].
    destruct (Ascii.eqb_spec c "{") as [->|Hc].
    + intros [= <-]. by exists EmptyString, s.
    + intros (pre & rest & -> & -> & Hpre)%IH.
      exists (String c pre), rest. split; [done|]. split; [done|].
      cbn [occurs]. rewrite Hpre.
      by destruct (Ascii.eqb_spec c "{").
  - intros (pre & rest & -> & -> & Hpre).
    induction pre as [|c pre IH];
      rewrite ?string_app_cons, ?string_app_nil; cbn [from_first_open].
    + done.
    + cbn [occurs] in Hpre. apply orb_false_elim in Hpre as [Hc Hpre].
      rewrite Hc. by apply IH.
Qed.

Lemma through_last_close_None (s : string) :
  through_last_close s = None ↔ occurs "}" s = false.
Proof.
  induction s as [|c s IH]; [done|]. cbn [through_last_close occurs].
  destruct (through_last_close s) as [t|].
  - split; [done|]. intros [_ H]%orb_false_elim. by apply IH in H.
  - rewrite (proj1 IH eq_refl), orb_false_r. by destruct (Ascii.eqb c "}").
Qed.

Lemma through_last_close_spec (s t : string) :
  through_last_close s = Some t ↔
  ∃ body post, s = body +:+ String "}" post ∧ t = body +:+ "}" ∧
               occurs "}" post = false.
Proof.
  split.
  - revert t. induction s as [|c s IH]; intros t; [done|].
    cbn [through_last_close].
    destruct (through_last_close s) as [t'|] eqn:Ht.
    + intros [= <-]. destruct (IH t' eq_refl) as (body & post & -> & -> & Hp).
      by exists (String c body), post.
    + destruct (Ascii.eqb_spec c "}") as [->|]; [|done]. intros [= <-].
      exists EmptyString, s. split; [done|]. split; [done|].
      by apply through_last_close_None.
  - intros (body & post & -> & -> & Hp).
    induction body as [|c body IH];
      rewrite ?string_app_cons, ?string_app_nil; cbn [through_last_close].
    + by rewrite (proj2 (through_last_close_None post) Hp).
    + by rewrite IH.
Qed.

(** X19: what the pattern of [callAI] extracts from a reply.  The match
    is the part of the text from its first ["{"] to its last ["}"]:
    free text before the block (without ["{"]) and after it (without
    ["}"]) is dropped, and there is no match exactly when no ["}"]
    follows the first ["{"]. *)
Theorem match_block_spec (text block : string) :
  match_block text = Some block ↔
  ∃ pre body post,
    text = pre +:+ "{" +:+ body +:+ "}" +:+ post ∧
    block = "{" +:+ body +:+ "}" ∧
    occurs "{" pre = false ∧ occurs "}" post = false.
Proof.
  unfold match_block. split.
  - destruct (from_first_open text) as [r|] eqn:Hr; [|done].
    cbn [mbind option_bind].
    apply from_first_open_spec in Hr as (pre & rest & -> & -> & Hpre).
    intros (body & post & Hs & -> & Hpost)%through_last_close_spec.
    destruct body as [|c body]; [done|].
    rewrite string_app_cons in Hs. injection Hs as <- ->.
    by exists pre, body, post.
  - intros (pre & body & post & -> & -> & Hpre & Hpost).
    assert (Hr : from_first_open (pre +:+ "{" +:+ body +:+ "}" +:+ post)
                 = Some (String "{" (body +:+ "}" +:+ post))).
    { apply from_first_open_spec.
      by exists pre, (body +:+ "}" +:+ post). }
    rewrite Hr. cbn [mbind option_bind]. apply through_last_close_spec.
    by exists (String "{" body), post.
Qed.

Section AdvisoryProps.
Variable JSON_parse : string → completion json.

(** X20: [callAI] returns an advisory exactly when the response is 2xx,
    its body parses, the first element of the body has a string
    [generated_text], the pattern matches in it and the match is JSON;
    in every other case it returns [null] without throwing.  It raises
    the toast 'AI rate limited' exactly on status 429. *)
Theorem callAI_outcome (net : fetch_outcome) :
  (∀ v, advisory (callAI JSON_parse net) = Some v ↔
     ∃ status data text block,
       net = Responded status (Normal data) ∧ ok status = true ∧
       generated_text data = Normal (Some (JString text)) ∧
       match_block text = Some block ∧ JSON_parse block = Normal v) ∧
  ((∃ body, net = Responded 429 body) →
   callAI JSON_parse net
   = {| advisory := None; ai_toasts := "AI rate limited" :: [] |}) ∧
  ((∀ body, net ≠ Responded 429 body) →
   ai_toasts (callAI JSON_parse net) = []).
Proof.
  split; [|split].
  - intros v. unfold callAI, callAI_try. split.
    + destruct net as [x|status body]; [done|].
      destruct (Z.eqb_spec status 429) as [->|Hs]; [done|].
      destruct (ok status) eqn:Hok; [|done]. cbn [negb].
      destruct body as [data|x]; [|done].
      destruct (generated_text data) as [text|x] eqn:Hg; [|done].
      destruct text as [[| | |s| |]|]; try done. cbn [optional_match].
      destruct (match_block s) as [block|] eqn:Hm; [|done].
      destruct (JSON_parse block) as [v'|x] eqn:Hp; [|done].
      cbn. intros [= <-]. by exists status, data, s, block.
    + intros (status & data & text & block & -> & Hok & Hg & Hm & Hp).
      destruct (Z.eqb_spec status 429) as [->|Hs]; [done|].
      rewrite Hok, Hg. cbn [negb optional_match]. by rewrite Hm, Hp.
  - intros [body ->]. reflexivity.
  - intros Hne. unfold callAI, callAI_try.
    destruct net as [x|status body]; [done|].
    destruct (Z.eqb_spec status 429) as [->|Hs]; [by destruct (Hne body)|].
    destruct (negb (ok status)); [done|].
    destruct body as [data|x]; [|done].
    destruct (generated_text data) as [text|x]; [|done].
    destruct (optional_match text) as [[block|]|x]; try done.
    by destruct (JSON_parse block).
Qed.
End AdvisoryProps.

Lemma match_block_spec_witness :
  match_block "Sure: {} done" = Some "{}".
Proof.
  apply (proj2 (match_block_spec "Sure: {} done" "{}")).
  by exists "Sure: ", "", " done".
Defined.

Lemma callAI_outcome_witness :
  advisory (callAI parse_empty_object (Responded 200 (Normal chatty_reply)))
  = Some (JObject []) ∧
  callAI parse_empty_object (Responded 429 (Throw SyntaxError))
  = {| advisory := None; ai_toasts := "AI rate limited" :: [] |} ∧
  ai_toasts (callAI parse_empty_object (Rejected TimeoutError)) = [].
Proof.
  split; [|split].
  - apply (proj2 (proj1 (callAI_outcome parse_empty_object
                           (Responded 200 (Normal chatty_reply)))
                        (JObject []))).
    by exists 200%Z, chatty_reply, "Sure: {} done", "{}".
  - apply (proj1 (proj2 (callAI_outcome parse_empty_object
                           (Responded 429 (Throw SyntaxError))))).
    by exists (Throw SyntaxError).
  - apply (proj2 (proj2 (callAI_outcome parse_empty_object
                           (Rejected TimeoutError)))).
    discriminate.
Defined.

(** ** Candles *)

(** X21: the candle that [loadChart] draws for a price point
    [[t, x]] with finite entries closes at [x].  For a price that is
    not negative it is well formed: low ≤ open ≤ close ≤ high.  For a
    price that is not positive the order is the reverse one: its high
    is not above its close, nor its close above its open, nor its open
    above its low. *)
Theorem candle_of_order (t x : Qc) :
  close (candle_of [Fin t; Fin x]) = Some (Fin x) ∧
  (0 <= x →
   Spec.ge (open (candle_of [Fin t; Fin x]))
           (low (candle_of [Fin t; Fin x])) = true ∧
   Spec.ge (Fin x) (open (candle_of [Fin t; Fin x])) = true ∧
   Spec.ge (high (candle_of [Fin t; Fin x])) (Fin x) = true) ∧
  (x <= 0 →
   Spec.ge (low (candle_of [Fin t; Fin x]))
           (open (candle_of [Fin t; Fin x])) = true ∧
   Spec.ge (open (candle_of [Fin t; Fin x])) (Fin x) = true ∧
   Spec.ge (Fin x) (high (candle_of [Fin t; Fin x])) = true).
Proof.
  unfold candle_of.
  cbn [lookup list_lookup ToNumber mul open high low close Spec.ge lt].
  split; [done|].
  split; intros Hx; rewrite !negb_true_iff, !Qcltb_ge; qc2q;
    change (Qred (99 # 100)) with (99 # 100)%Q;
    change (Qred (98 # 100)) with (49 # 50)%Q;
    change (Qred (101 # 100)) with (101 # 100)%Q; lra.
Qed.

Lemma candle_of_order_witness :
  Spec.ge (open (candle_of [Fin (lit 5000); Fin (lit 100)]))
          (low (candle_of [Fin (lit 5000); Fin (lit 100)])) = true ∧
  Spec.ge (Fin (lit 100)) (open (candle_of [Fin (lit 5000); Fin (lit 100)]))
  = true ∧
  Spec.ge (high (candle_of [Fin (lit 5000); Fin (lit 100)])) (Fin (lit 100))
  = true.
Proof.
  apply (proj1 (proj2 (candle_of_order (lit 5000) (lit 100)))).
  discriminate.
Defined.

(** ** Loading the asset list *)

Lemma coins_key_not_cache (k : string) :
  "coins" ≠ data_key k ∧ "coins" ≠ meta_key k.
Proof. split; discriminate. Qed.

Section LoaderProps.
Variable ToNumber_object : json → number.
Variable message : exn → string.
Variable renderCoins : json → option exn.
Variable String_slice : string → nat → string.

(** The store after [loadCoins] is the store after its [fetchAPI],
    possibly with the ['coins'] item set. *)
Lemma loadCoins_storage (e : env) (coins0 : json) (ls : gmap string json) :
  let o := fetchAPI ToNumber_object e coins_url "coins" ls in
  load_storage (loadCoins ToNumber_object message renderCoins String_slice
                  e coins0 ls) = storage o ∨
  ∃ v, load_storage (loadCoins ToNumber_object message renderCoins String_slice
                       e coins0 ls) = <["coins" := v]> (storage o).
Proof.
  intros o. unfold loadCoins. fold o.
  destruct (result o) as [coins|x]; [|by left].
  destruct (json_slice String_slice coins 20) as [first20|x]; [|by left].
  right. exists first20.
  destruct (renderCoins first20); [done|].
  by destruct (json_slice String_slice coins 5) as [[]|].
Qed.

(** X22: a fresh array of coins is kept whole in [STATE.coins], its
    first 20 elements are persisted under ['coins'] and rendered, so
    that the next start-up reads exactly these 20 as its initial list,
    and, if rendering returns, signal generation is started for its
    first 5 elements and [loadCoins] resolves without toast. *)
Theorem loadCoins_success (e : env) (coins0 : json) (items : list json)
    (ls : gmap string json) :
  success e (JArray items) →
  state_coins (loadCoins ToNumber_object message renderCoins String_slice
                 e coins0 ls) = JArray items ∧
  load_storage (loadCoins ToNumber_object message renderCoins String_slice
                  e coins0 ls)
  = <["coins" := JArray (take 20 items)]>
      (cache_set "coins" (JArray items) (now e) ls) ∧
  initial_coins (load_storage (loadCoins ToNumber_object message renderCoins
                                 String_slice e coins0 ls))
  = JArray (take 20 items) ∧
  head (rendered (loadCoins ToNumber_object message renderCoins String_slice
                    e coins0 ls)) = Some (JArray (take 20 items)) ∧
  (renderCoins (JArray (take 20 items)) = None →
   started (loadCoins ToNumber_object message renderCoins String_slice
              e coins0 ls) = take 5 items ∧
   failed_toast (loadCoins ToNumber_object message renderCoins String_slice
                   e coins0 ls) = None ∧
   settled (loadCoins ToNumber_object message renderCoins String_slice
              e coins0 ls) = None).
Proof.
  intros Hs. pose proof (try_fetch_success e _ Hs) as Ht.
  destruct Hs as [Hon _]. unfold loadCoins, fetchAPI.
  rewrite Hon, Ht. cbn [negb result storage toasts json_slice].
  destruct (renderCoins (JArray (take 20 items))) as [x|];
    cbn [state_coins load_storage rendered started failed_toast settled
         load_failed app head];
    unfold initial_coins; rewrite ?lookup_insert_eq; repeat split; done.
Qed.

(** X23: when [fetchAPI] throws, [loadCoins] leaves [STATE.coins] and
    [localStorage] as they were, raises the toast 'Load failed: ' with
    the message of the exception, renders the previous list and starts
    no signal generation. *)
Theorem loadCoins_failure (e : env) (coins0 : json) (ls : gmap string json)
    (x : exn) :
  result (fetchAPI ToNumber_object e coins_url "coins" ls) = Throw x →
  loadCoins ToNumber_object message renderCoins String_slice e coins0 ls
  = {| state_coins := coins0; load_storage := ls; fetch_toasts := [];
       failed_toast := Some ("Load failed: " +:+ message x);
       rendered := coins0 :: []; started := [];
       settled := renderCoins coins0 |}.
Proof.
  intros Hr. destruct (fetchAPI_throw _ _ _ _ _ _ Hr) as [Hst Hto].
  unfold loadCoins. rewrite Hr, Hst, Hto. reflexivity.
Qed.

(** X24: [loadCoins] never disturbs the cache of another key: for every
    key other than ["coins"] and ["coins_meta"], [cache.get] answers
    after the call as it did before. *)
Theorem loadCoins_other_cache (e : env) (coins0 : json)
    (ls : gmap string json) (k : string) (t : Z) :
  k ≠ "coins" → k ≠ "coins_meta" →
  cache_get ToNumber_object k t
    (load_storage (loadCoins ToNumber_object message renderCoins String_slice
                     e coins0 ls))
  = cache_get ToNumber_object k t ls.
Proof.
  intros Hk Hm.
  assert (Hd1 : data_key k ≠ data_key "coins")
    by (unfold data_key; intros H; by apply (inj _) in H).
  assert (Hd2 : data_key k ≠ meta_key "coins").
  { rewrite meta_key_data_key. unfold data_key. intros H.
    by apply (inj _) in H. }
  assert (Hm1 : meta_key k ≠ data_key "coins").
  { rewrite meta_key_data_key. unfold data_key. intros H.
    apply (inj _) in H. pose proof (f_equal String.length H) as Hl.
    rewrite string_length_app in Hl. simpl in Hl.
    assert (k = "") as -> by (destruct k; [done|simpl in Hl; lia]).
    discriminate. }
  assert (Hm2 : meta_key k ≠ meta_key "coins").
  { unfold meta_key. intros H. apply (inj _) in H.
    by apply string_app_inj_r in H. }
  destruct (coins_key_not_cache k) as [Hc1 Hc2].
  unfold cache_get.
  destruct (loadCoins_storage e coins0 ls) as [->|[v ->]];
    rewrite ?lookup_insert_ne by done;
    by rewrite !fetchAPI_storage_other by done.
Qed.
End LoaderProps.

Lemma loadCoins_success_witness :
  state_coins (loadCoins no_ToNumber_object no_message coins_render byte_slice
                 (fresh_at 3 (JArray [JNumber 1; JNumber 2])) (JArray []) ∅)
  = JArray [JNumber 1; JNumber 2] ∧
  initial_coins
    (load_storage (loadCoins no_ToNumber_object no_message coins_render
                     byte_slice (fresh_at 3 (JArray [JNumber 1; JNumber 2]))
                     (JArray []) ∅))
  = JArray (take 20 [JNumber 1; JNumber 2]).
Proof.
  destruct (loadCoins_success no_ToNumber_object no_message coins_render
              byte_slice (fresh_at 3 (JArray [JNumber 1; JNumber 2]))
              (JArray []) [JNumber 1; JNumber 2] ∅
              (success_fresh_at 3 (JArray [JNumber 1; JNumber 2])))
    as (H1 & _ & H3 & _).
  exact (conj H1 H3).
Defined.

Lemma loadCoins_failure_witness :
  loadCoins no_ToNumber_object no_message coins_render byte_slice
    (offline_at 3) (JArray [JNumber 1]) ∅
  = {| state_coins := JArray [JNumber 1]; load_storage := ∅;
       fetch_toasts := [];
       failed_toast := Some ("Load failed: " +:+ no_message ErrorOffline);
       rendered := JArray [JNumber 1] :: []; started := [];
       settled := coins_render (JArray [JNumber 1]) |}.
Proof.
  apply (loadCoins_failure no_ToNumber_object no_message coins_render
           byte_slice (offline_at 3) (JArray [JNumber 1]) ∅ ErrorOffline).
  reflexivity.
Defined.

Lemma loadCoins_other_cache_witness :
  cache_get no_ToNumber_object "news" 9
    (load_storage (loadCoins no_ToNumber_object no_message coins_render
                     byte_slice (fresh_at 3 (JArray [])) (JArray [])
                     (cache_set "news" (JNumber 1) 0 ∅)))
  = cache_get no_ToNumber_object "news" 9 (cache_set "news" (JNumber 1) 0 ∅).
Proof.
  apply (loadCoins_other_cache no_ToNumber_object no_message coins_render
           byte_slice (fresh_at 3 (JArray [])) (JArray [])
           (cache_set "news" (JNumber 1) 0 ∅) "news" 9); discriminate.
Defined.
